(** * Crazyflie controller experiments: telemetry pipeline and scoped flight

    A shallow embedding of the two scripts of the repository,
    [scripts/test_basiclog.py] (telemetry acquisition thread, bounded
    buffers, periodic renderer) and [scripts/test_hover.py] (scripted
    flight inside two nested [with] scopes), followed by the properties
    established about them.

    Conventions of the embedding:
    - Python [int] timestamps are [Z]; Python [float] values (telemetry
      samples, [time.time()] readings, elapsed times) are idealised as
      rationals [Q]: no property below depends on rounding;
    - [collections.deque(maxlen=n)] is a record holding [maxlen] and the
      items, oldest first;
    - Python exceptions are values of [exn]; code that can raise returns a
      [result];
    - the two threads of [test_basiclog.py] are program counters over one
      shared record of module globals, interleaved by an explicit
      schedule of labelled actions. *)

From Stdlib Require Import ZArith QArith Lia Lqa List Bool String.
From stdpp Require Import base gmap strings list sorting.

(** ** Python exceptions and fallible results *)

Inductive exn : Type :=
| IndexError
| ValueError
| KeyError (key : string)
| LinkError (reason : string)   (* an [Exception] raised by the cflib link *)
| KeyboardInterrupt.            (* a [BaseException], not an [Exception] *)

(** [isinstance(e, Exception)], the test made by [except Exception]. *)
Definition is_Exception (e : exn) : bool :=
  match e with
  | KeyboardInterrupt => false
  | _ => true
  end.

Inductive result (A : Type) : Type :=
| Ok (a : A)
| Raise (e : exn).
Arguments Ok {A} a.
Arguments Raise {A} e.

#[export] Instance result_ret : MRet result := fun A a => Ok a.
#[export] Instance result_bind : MBind result := fun A B k m =>
  match m with
  | Ok a => k a
  | Raise e => Raise e
  end.

(** ** [collections.deque] with a maximum length *)

Module Deque.
Section deque.
Context {A : Type}.

Record deque : Type := mk { maxlen : nat; items : list A }.

(** [deque(maxlen=n)] *)
Definition new (n : nat) : deque := {| maxlen := n; items := [] |}.

(** [len(d)] *)
Definition len (d : deque) : nat := length (items d).

(** [d.append(x)]: the item is pushed on the right; when the deque then
    holds more than [maxlen] items the leftmost one is discarded. *)
Definition append (d : deque) (x : A) : deque :=
  let l := items d ++ [x] in
  {| maxlen := maxlen d;
     items := if (maxlen d <? length l)%nat then tail l else l |}.

(** [list(d)]: the contents, oldest first. *)
Definition to_list (d : deque) : list A := items d.

(** [d[0]] *)
Definition first (d : deque) : result A :=
  match items d with
  | x :: _ => Ok x
  | [] => Raise IndexError
  end.

(** a run of [append] calls, in order *)
Definition append_all (d : deque) (xs : list A) : deque := foldl append d xs.
End deque.
Arguments deque : clear implicits.
End Deque.
Import Deque.

(** ** Python built-ins used by the renderer *)

Definition Qltb (a b : Q) : bool := negb (Qle_bool b a).

(** [min(l)] and [max(l)]: [ValueError] on an empty sequence; otherwise the
    first item is kept until a strictly smaller (larger) one is met. *)
Definition py_min (l : list Q) : result Q :=
  match l with
  | [] => Raise ValueError
  | x :: xs => Ok (foldl (fun m y => if Qltb y m then y else m) x xs)
  end.

Definition py_max (l : list Q) : result Q :=
  match l with
  | [] => Raise ValueError
  | x :: xs => Ok (foldl (fun m y => if Qltb m y then y else m) x xs)
  end.

(** [a[-1]] *)
Definition getitem_last {A} (l : list A) : result A :=
  match last l with
  | Some x => Ok x
  | None => Raise IndexError
  end.

(** ** [scripts/test_basiclog.py] *)

Module Basiclog.

(** *** Module globals (lines 33-43) *)

Inductive thread : Type := Producer | MainThread.

Record globals : Type := {
  timestamps : deque Z;          (* line 33 *)
  roll_data : deque Q;           (* line 34 *)
  pitch_data : deque Q;          (* line 35 *)
  yaw_data : deque Q;            (* line 36 *)
  data_lock : option thread;     (* line 39: the holder, if any *)
  data_count : nat;              (* line 42 *)
  running : bool                 (* line 43 *)
}.

Definition globals0 : globals := {|
  timestamps := Deque.new 1000;
  roll_data := Deque.new 1000;
  pitch_data := Deque.new 1000;
  yaw_data := Deque.new 1000;
  data_lock := None;
  data_count := 0;
  running := true
|}.

Definition set_timestamps (d : deque Z) (g : globals) : globals :=
  {| timestamps := d; roll_data := roll_data g; pitch_data := pitch_data g;
     yaw_data := yaw_data g; data_lock := data_lock g;
     data_count := data_count g; running := running g |}.
Definition set_roll_data (d : deque Q) (g : globals) : globals :=
  {| timestamps := timestamps g; roll_data := d; pitch_data := pitch_data g;
     yaw_data := yaw_data g; data_lock := data_lock g;
     data_count := data_count g; running := running g |}.
Definition set_pitch_data (d : deque Q) (g : globals) : globals :=
  {| timestamps := timestamps g; roll_data := roll_data g; pitch_data := d;
     yaw_data := yaw_data g; data_lock := data_lock g;
     data_count := data_count g; running := running g |}.
Definition set_yaw_data (d : deque Q) (g : globals) : globals :=
  {| timestamps := timestamps g; roll_data := roll_data g;
     pitch_data := pitch_data g; yaw_data := d; data_lock := data_lock g;
     data_count := data_count g; running := running g |}.
Definition set_data_lock (o : option thread) (g : globals) : globals :=
  {| timestamps := timestamps g; roll_data := roll_data g;
     pitch_data := pitch_data g; yaw_data := yaw_data g; data_lock := o;
     data_count := data_count g; running := running g |}.
Definition set_data_count (n : nat) (g : globals) : globals :=
  {| timestamps := timestamps g; roll_data := roll_data g;
     pitch_data := pitch_data g; yaw_data := yaw_data g;
     data_lock := data_lock g; data_count := n; running := running g |}.
Definition set_running (b : bool) (g : globals) : globals :=
  {| timestamps := timestamps g; roll_data := roll_data g;
     pitch_data := pitch_data g; yaw_data := yaw_data g;
     data_lock := data_lock g; data_count := data_count g; running := b |}.

(** *** The renderer calls made by [animate] (lines 45-116) *)

Inductive axis : Type := ax1 | ax2 | ax3.

Inductive draw : Type :=
| Clear (ax : axis)
| Plot (ax : axis) (xs ys : list Q) (fmt : string)
| SetYLabel (ax : axis) (label : string)
| SetXLabel (ax : axis) (label : string)
| SetTitle (ax : axis) (received : nat)
| Grid (ax : axis)
| SetYLim (ax : axis) (lo hi : Q)
| SetXLim (ax : axis) (lo hi : Q)
| Text (ax : axis) (s : string).

(** Lines 100-112: the "waiting" placeholder. *)
Definition placeholder (count : nat) : list draw :=
  [ Clear ax1; Clear ax2; Clear ax3;
    Text ax1 "Waiting for data..."; Text ax2 "Waiting for data...";
    Text ax3 "Waiting for data...";
    SetTitle ax1 count;
    SetYLabel ax1 "Roll (deg)"; SetYLabel ax2 "Pitch (deg)";
    SetYLabel ax3 "Yaw (deg)"; SetXLabel ax3 "Time (s)" ].

(** Lines 61-80: the three curves. *)
Definition curves (times roll pitch yaw : list Q) (count : nat) : list draw :=
  [ Clear ax1; Clear ax2; Clear ax3;
    Plot ax1 times roll "r-"; SetYLabel ax1 "Roll (deg)";
    SetTitle ax1 count; Grid ax1;
    Plot ax2 times pitch "g-"; SetYLabel ax2 "Pitch (deg)"; Grid ax2;
    Plot ax3 times yaw "b-"; SetYLabel ax3 "Yaw (deg)";
    SetXLabel ax3 "Time (s)"; Grid ax3 ].

(** Lines 83-89: common y-limits, computed only when there is data. *)
Definition ylimits (all_data : list Q) : result (list draw) :=
  match all_data with
  | [] => Ok []
  | _ :: _ =>
      y_min ← py_min all_data;
      y_max ← py_max all_data;
      let margin :=
        if negb (Qeq_bool y_max y_min) then ((y_max - y_min) * (2 # 10))%Q
        else 2%Q in
      Ok [ SetYLim ax1 (y_min - margin)%Q (y_max + margin)%Q;
           SetYLim ax2 (y_min - margin)%Q (y_max + margin)%Q;
           SetYLim ax3 (y_min - margin)%Q (y_max + margin)%Q ]
  end.

(** Lines 92-97: x-limits from the last elapsed time. *)
Definition xlimits (times_plot : list Q) : result (list draw) :=
  if (0 <? length times_plot)%nat then
    t_last ← getitem_last times_plot;
    let x_min := 0%Q in
    let x_max := (t_last + (1 # 2))%Q in
    Ok [ SetXLim ax1 x_min x_max; SetXLim ax2 x_min x_max;
         SetXLim ax3 x_min x_max ]
  else Ok [].

(** Line 52: elapsed seconds relative to the first timestamp. *)
Definition elapsed (start_time : Z) (ts : list Z) : list Q :=
  map (fun t => (inject_Z (t - start_time) / 1000)%Q) ts.

(** The body of [with data_lock:] in [animate] (lines 49-112): the renderer
    calls it makes, or the exception it raises. *)
Definition animate (g : globals) : result (list draw) :=
  if (2 <? Deque.len (timestamps g))%nat then
    start_time ← Deque.first (timestamps g);
    let times := elapsed start_time (Deque.to_list (timestamps g)) in
    let times_plot := times in
    let roll_plot := Deque.to_list (roll_data g) in
    let pitch_plot := Deque.to_list (pitch_data g) in
    let yaw_plot := Deque.to_list (yaw_data g) in
    let all_data := roll_plot ++ pitch_plot ++ yaw_plot in
    ylim ← ylimits all_data;
    xlim ← xlimits times_plot;
    Ok (curves times_plot roll_plot pitch_plot yaw_plot (data_count g)
          ++ ylim ++ xlim)
  else
    Ok (placeholder (data_count g)).

(** What one tick reads from the shared globals while it holds the lock. *)
Record snapshot : Type := {
  snap_timestamps : list Z;
  snap_roll : list Q;
  snap_pitch : list Q;
  snap_yaw : list Q;
  snap_count : nat
}.

Definition observe (g : globals) : snapshot := {|
  snap_timestamps := Deque.to_list (timestamps g);
  snap_roll := Deque.to_list (roll_data g);
  snap_pitch := Deque.to_list (pitch_data g);
  snap_yaw := Deque.to_list (yaw_data g);
  snap_count := data_count g
|}.

(** *** Log frames delivered by [SyncLogger] *)

Record frame : Type := {
  f_timestamp : Z;              (* log_entry[0] *)
  f_data : gmap string Q;       (* log_entry[1] *)
  f_logconf : string            (* log_entry[2] *)
}.

(** A frame of the subscription of lines 122-125 carries its three
    variables. *)
Definition frame_ok (f : frame) : Prop :=
  is_Some (f_data f !! "stabilizer.roll") ∧
  is_Some (f_data f !! "stabilizer.pitch") ∧
  is_Some (f_data f !! "stabilizer.yaw").

(** Lines printed on standard output. *)
Inductive message : Type :=
| MsgTrying                                   (* lines 163-164 *)
| MsgConnected                                (* line 130 *)
| MsgFrame (ts : Z) (name : string) (data : gmap string Q)  (* line 151 *)
| MsgError (e : exn)                          (* line 156 *)
| MsgCheckDrone                               (* line 157 *)
| MsgStopping                                 (* line 188 *)
| MsgTotal (count : nat).                     (* line 195 *)

#[export] Instance frame_ok_dec (f : frame) : Decision (frame_ok f).
Proof. unfold frame_ok. apply _. Defined.

(** *** The two threads *)

(** Program points of [data_collection_thread] (lines 118-157).  The points
    inside the [for] loop carry the deadline computed at line 133 and the
    frame bound to [log_entry]. *)
Inductive loop_point : Type :=
| AtCheckRunning      (* line 136 *)
| AtLock              (* line 144, waiting for [data_lock] *)
| AtAppendTimestamp   (* line 145 *)
| AtAppendRoll        (* line 146 *)
| AtAppendPitch       (* line 147 *)
| AtAppendYaw         (* line 148 *)
| AtIncrement         (* line 149 *)
| AtUnlock            (* end of the [with data_lock] block *)
| AtPrint             (* line 151 *)
| AtCheckDeadline.    (* line 153 *)

Inductive ppc : Type :=
| PIdle                               (* thread object not started yet *)
| PStart                              (* lines 122-127 *)
| PConnect                            (* line 129: SyncCrazyflie.__enter__ *)
| PSubscribe                          (* line 132: SyncLogger.__enter__ *)
| PSetDeadline                        (* line 133 *)
| PNext (endTime : Q)                 (* line 135: blocked in next(logger) *)
| PIter (endTime : Q) (log_entry : frame) (at_ : loop_point)
| PExitLogger (pending : option exn)  (* SyncLogger.__exit__ *)
| PExitLink (pending : option exn)    (* SyncCrazyflie.__exit__ *)
| PHandler (e : exn)                  (* line 155: the except clause *)
| PDone                               (* the thread function returned *)
| PUncaught (e : exn).                (* the thread died on an exception *)

(** Program points of the main thread (lines 159-197).  [plt.pause] runs the
    GUI event loop, from which the animation timer calls [animate]. *)
Inductive pause_site : Type :=
| SetupPause          (* line 177 *)
| LoopPause.          (* line 186 *)

Inductive mpc : Type :=
| MInit                               (* lines 160-176 *)
| MPause (site : pause_site)          (* inside plt.pause *)
| MAnimate (site : pause_site)        (* inside animate, holding data_lock *)
| MStart                              (* lines 180-181 *)
| MLoop                               (* line 185 *)
| MJoin                               (* line 192 *)
| MSleep                              (* lines 195-196 *)
| MDone
| MKilled (e : exn).                  (* uncaught exception in main *)

Record sys : Type := {
  g : globals;
  producer : ppc;
  main : mpc;
  clock : Q;                          (* what time.time() returns *)
  stdout : list message;
  screen : list (list draw);          (* frames drawn, oldest first *)
  snapshots : list snapshot;          (* what each tick read, oldest first *)
  fetched : list frame                (* frames yielded by the iterator *)
}.

Definition init (t0 : Q) : sys := {|
  g := globals0; producer := PIdle; main := MInit; clock := t0;
  stdout := []; screen := []; snapshots := []; fetched := []
|}.

Definition set_g (x : globals) (s : sys) : sys :=
  {| g := x; producer := producer s; main := main s; clock := clock s;
     stdout := stdout s; screen := screen s; snapshots := snapshots s;
     fetched := fetched s |}.
Definition set_producer (p : ppc) (s : sys) : sys :=
  {| g := g s; producer := p; main := main s; clock := clock s;
     stdout := stdout s; screen := screen s; snapshots := snapshots s;
     fetched := fetched s |}.
Definition set_main (m : mpc) (s : sys) : sys :=
  {| g := g s; producer := producer s; main := m; clock := clock s;
     stdout := stdout s; screen := screen s; snapshots := snapshots s;
     fetched := fetched s |}.
Definition set_clock (t : Q) (s : sys) : sys :=
  {| g := g s; producer := producer s; main := main s; clock := t;
     stdout := stdout s; screen := screen s; snapshots := snapshots s;
     fetched := fetched s |}.
Definition emit (m : list message) (s : sys) : sys :=
  {| g := g s; producer := producer s; main := main s; clock := clock s;
     stdout := stdout s ++ m; screen := screen s; snapshots := snapshots s;
     fetched := fetched s |}.
Definition render (cmds : list draw) (snap : snapshot) (s : sys) : sys :=
  {| g := g s; producer := producer s; main := main s; clock := clock s;
     stdout := stdout s; screen := screen s ++ [cmds];
     snapshots := snapshots s ++ [snap]; fetched := fetched s |}.
Definition fetch (f : frame) (s : sys) : sys :=
  {| g := g s; producer := producer s; main := main s; clock := clock s;
     stdout := stdout s; screen := screen s; snapshots := snapshots s;
     fetched := fetched s ++ [f] |}.

(** What the environment contributes to one step of the producer: nothing
    (an internal step), or the outcome of the pending call into the link. *)
Inductive plabel : Type :=
| Tau
| LinkOk                  (* the pending call returns *)
| LinkFrame (f : frame)   (* next(logger) yields a frame *)
| LinkEnd                 (* next(logger) raises StopIteration *)
| LinkRaise (e : exn).    (* the pending call raises *)

(** [data['stabilizer....']] followed by [.append] on one channel, inside
    the [with data_lock] block: a missing key raises [KeyError], the
    block's exit releases the lock and the exception leaves the loop. *)
Definition append_channel (key : string) (f : frame)
    (put : Q → globals → globals) (next : ppc) (s : sys) : sys :=
  match f_data f !! key with
  | Some v => set_producer next (set_g (put v (g s)) s)
  | None =>
      set_producer (PExitLogger (Some (KeyError key)))
        (set_g (set_data_lock None (g s)) s)
  end.

(** One step of [data_collection_thread]. *)
Definition pstep (l : plabel) (s : sys) : option sys :=
  match producer s, l with
  | PStart, Tau => Some (set_producer PConnect s)
  | PConnect, LinkOk => Some (set_producer PSubscribe (emit [MsgConnected] s))
  | PConnect, LinkRaise e => Some (set_producer (PHandler e) s)
  | PSubscribe, LinkOk => Some (set_producer PSetDeadline s)
  | PSubscribe, LinkRaise e => Some (set_producer (PExitLink (Some e)) s)
  | PSetDeadline, Tau => Some (set_producer (PNext (clock s + 60)%Q) s)
  | PNext endTime, LinkFrame f =>
      Some (set_producer (PIter endTime f AtCheckRunning) (fetch f s))
  | PNext _, LinkEnd => Some (set_producer (PExitLogger None) s)
  | PNext _, LinkRaise e => Some (set_producer (PExitLogger (Some e)) s)
  | PIter endTime f AtCheckRunning, Tau =>
      if negb (running (g s)) then Some (set_producer (PExitLogger None) s)
      else Some (set_producer (PIter endTime f AtLock) s)
  | PIter endTime f AtLock, Tau =>
      match data_lock (g s) with
      | None =>
          Some (set_producer (PIter endTime f AtAppendTimestamp)
                  (set_g (set_data_lock (Some Producer) (g s)) s))
      | Some _ => None
      end
  | PIter endTime f AtAppendTimestamp, Tau =>
      Some (set_producer (PIter endTime f AtAppendRoll)
              (set_g (set_timestamps
                        (Deque.append (timestamps (g s)) (f_timestamp f))
                        (g s)) s))
  | PIter endTime f AtAppendRoll, Tau =>
      Some (append_channel "stabilizer.roll" f
              (fun v g => set_roll_data (Deque.append (roll_data g) v) g)
              (PIter endTime f AtAppendPitch) s)
  | PIter endTime f AtAppendPitch, Tau =>
      Some (append_channel "stabilizer.pitch" f
              (fun v g => set_pitch_data (Deque.append (pitch_data g) v) g)
              (PIter endTime f AtAppendYaw) s)
  | PIter endTime f AtAppendYaw, Tau =>
      Some (append_channel "stabilizer.yaw" f
              (fun v g => set_yaw_data (Deque.append (yaw_data g) v) g)
              (PIter endTime f AtIncrement) s)
  | PIter endTime f AtIncrement, Tau =>
      Some (set_producer (PIter endTime f AtUnlock)
              (set_g (set_data_count (data_count (g s) + 1) (g s)) s))
  | PIter endTime f AtUnlock, Tau =>
      Some (set_producer (PIter endTime f AtPrint)
              (set_g (set_data_lock None (g s)) s))
  | PIter endTime f AtPrint, Tau =>
      Some (set_producer (PIter endTime f AtCheckDeadline)
              (emit [MsgFrame (f_timestamp f) (f_logconf f) (f_data f)] s))
  | PIter endTime f AtCheckDeadline, Tau =>
      if Qltb endTime (clock s)
      then Some (set_producer (PExitLogger None) s)
      else Some (set_producer (PNext endTime) s)
  | PExitLogger pending, LinkOk => Some (set_producer (PExitLink pending) s)
  | PExitLogger _, LinkRaise e => Some (set_producer (PExitLink (Some e)) s)
  | PExitLink None, LinkOk => Some (set_producer PDone s)
  | PExitLink (Some e), LinkOk => Some (set_producer (PHandler e) s)
  | PExitLink _, LinkRaise e => Some (set_producer (PHandler e) s)
  | PHandler e, Tau =>
      if is_Exception e
      then Some (set_producer PDone (emit [MsgError e; MsgCheckDrone] s))
      else Some (set_producer (PUncaught e) s)
  | _, _ => None
  end.

(** [data_thread.is_alive()] *)
Definition is_alive (p : ppc) : bool :=
  match p with
  | PIdle | PDone | PUncaught _ => false
  | _ => true
  end.

(** What the environment contributes to one step of the main thread. *)
Inductive mlabel : Type :=
| Go              (* the thread runs on *)
| Timer           (* inside plt.pause: the animation timer fires *)
| Interrupt.      (* KeyboardInterrupt is delivered *)

(** Lines 187-189, reached from inside the [try] of line 183. *)
Definition on_interrupt (s : sys) : sys :=
  set_main MJoin (set_g (set_running false (g s)) (emit [MsgStopping] s)).

(** One step of the main thread. *)
Definition mstep (l : mlabel) (s : sys) : option sys :=
  match main s, l with
  | MInit, Go => Some (set_main (MPause SetupPause) (emit [MsgTrying] s))
  | MPause site, Timer =>
      match data_lock (g s) with
      | None =>
          Some (set_main (MAnimate site)
                  (set_g (set_data_lock (Some MainThread) (g s)) s))
      | Some _ => None
      end
  | MAnimate site, Go =>
      let s' := set_g (set_data_lock None (g s)) s in
      match animate (g s) with
      | Ok cmds => Some (set_main (MPause site) (render cmds (observe (g s)) s'))
      | Raise e => Some (set_main (MKilled e) s')
      end
  | MPause SetupPause, Go => Some (set_main MStart s)
  | MPause LoopPause, Go => Some (set_main MLoop s)
  | MStart, Go => Some (set_main MLoop (set_producer PStart s))
  | MLoop, Go =>
      if running (g s) && is_alive (producer s)
      then Some (set_main (MPause LoopPause) s)
      else Some (set_main MJoin s)
  | MJoin, Go =>
      if is_alive (producer s) then None
      else Some (set_main MSleep (emit [MsgTotal (data_count (g s))] s))
  | MSleep, Go => Some (set_main MDone s)
  | MLoop, Interrupt | MPause LoopPause, Interrupt => Some (on_interrupt s)
  | MAnimate LoopPause, Interrupt =>
      Some (on_interrupt (set_g (set_data_lock None (g s)) s))
  | MAnimate SetupPause, Interrupt =>
      Some (set_main (MKilled KeyboardInterrupt)
              (set_g (set_data_lock None (g s)) s))
  | (MInit | MPause SetupPause | MStart | MJoin | MSleep), Interrupt =>
      Some (set_main (MKilled KeyboardInterrupt) s)
  | _, _ => None
  end.

(** *** Interleavings *)

Inductive action : Type :=
| Tick (dt : Q)        (* the wall clock advances by dt >= 0 seconds *)
| Prod (l : plabel)
| Main (l : mlabel).

Definition step (a : action) (s : sys) : option sys :=
  match a with
  | Tick dt =>
      if Qle_bool 0 dt then Some (set_clock (clock s + dt)%Q s) else None
  | Prod l => pstep l s
  | Main l => mstep l s
  end.

Fixpoint run (sched : list action) (s : sys) : option sys :=
  match sched with
  | [] => Some s
  | a :: rest =>
      match step a s with
      | Some s' => run rest s'
      | None => None
      end
  end.

(** *** Vocabulary of the properties *)

(** The renderer calls that tell the two branches of [animate] apart. *)
Definition is_plot (c : draw) : bool :=
  match c with Plot _ _ _ _ => true | _ => false end.

Definition is_text (c : draw) : bool :=
  match c with Text _ _ => true | _ => false end.

(** The channel values of a frame ([0] stands for a missing key, which
    [frame_ok] excludes). *)
Definition roll_of (f : frame) : Q :=
  default 0%Q (f_data f !! "stabilizer.roll").
Definition pitch_of (f : frame) : Q :=
  default 0%Q (f_data f !! "stabilizer.pitch").
Definition yaw_of (f : frame) : Q :=
  default 0%Q (f_data f !! "stabilizer.yaw").

(** A series of capacity 1000 into which [xs] has been appended. *)
Definition stored {A} (xs : list A) : deque A :=
  Deque.append_all (Deque.new 1000) xs.

(** What a tick reads when exactly [frames] have been stored. *)
Definition view_of (frames : list frame) : snapshot := {|
  snap_timestamps := Deque.to_list (stored (f_timestamp <$> frames));
  snap_roll := Deque.to_list (stored (roll_of <$> frames));
  snap_pitch := Deque.to_list (stored (pitch_of <$> frames));
  snap_yaw := Deque.to_list (stored (yaw_of <$> frames));
  snap_count := length frames
|}.

Definition balanced (sn : snapshot) : Prop :=
  length (snap_timestamps sn) = length (snap_roll sn) ∧
  length (snap_roll sn) = length (snap_pitch sn) ∧
  length (snap_pitch sn) = length (snap_yaw sn).

(** A snapshot made of whole frames only. *)
Definition coherent (sn : snapshot) : Prop :=
  ∃ frames, Forall frame_ok frames ∧ sn = view_of frames.

(** The producer is inside its [with data_lock] block. *)
Definition in_critical (p : ppc) : bool :=
  match p with
  | PIter _ _ (AtAppendTimestamp | AtAppendRoll | AtAppendPitch
               | AtAppendYaw | AtIncrement | AtUnlock) => true
  | _ => false
  end.

Definition animating (m : mpc) : bool :=
  match m with MAnimate _ => true | _ => false end.

(** The main thread has not reached line 181 yet. *)
Definition before_start (m : mpc) : bool :=
  match m with
  | MInit | MPause SetupPause | MAnimate SetupPause | MStart => true
  | _ => false
  end.

Definition frame_at (p : ppc) : option frame :=
  match p with PIter _ f _ => Some f | _ => None end.

(** The appends of the current group already made and not yet counted, for
    the series of timestamps, roll, pitch and yaw. *)
Definition partial (p : ppc)
    : list frame * list frame * list frame * list frame :=
  match p with
  | PIter _ f AtAppendRoll => ([f], [], [], [])
  | PIter _ f AtAppendPitch => ([f], [f], [], [])
  | PIter _ f AtAppendYaw => ([f], [f], [f], [])
  | PIter _ f AtIncrement => ([f], [f], [f], [f])
  | _ => ([], [], [], [])
  end.

(** The state agrees with the frames [done] stored and counted so far. *)
Record consistent (done : list frame) (s : sys) : Prop := {
  c_done : Forall frame_ok done;
  c_count : data_count (g s) = length done;
  c_timestamps :
    timestamps (g s)
      = stored (f_timestamp <$> (done ++ (partial (producer s)).1.1.1));
  c_roll :
    roll_data (g s)
      = stored (roll_of <$> (done ++ (partial (producer s)).1.1.2));
  c_pitch :
    pitch_data (g s)
      = stored (pitch_of <$> (done ++ (partial (producer s)).1.2));
  c_yaw :
    yaw_data (g s) = stored (yaw_of <$> (done ++ (partial (producer s)).2));
  c_lock :
    data_lock (g s) =
      if in_critical (producer s) then Some Producer
      else if animating (main s) then Some MainThread else None;
  c_excl : in_critical (producer s) = true → animating (main s) = false;
  c_frame : ∀ f, frame_at (producer s) = Some f → frame_ok f;
  c_idle : before_start (main s) = true → producer s = PIdle;
  c_snapshots : Forall coherent (snapshots s)
}.

(** The link delivers frames of the subscription. *)
Definition well_formed (a : action) : Prop :=
  match a with
  | Prod (LinkFrame f) => frame_ok f
  | _ => True
  end.

(** The link raises [Exception]s only. *)
Definition raises_Exception (a : action) : Prop :=
  match a with
  | Prod (LinkRaise e) => is_Exception e = true
  | _ => True
  end.

(** No outcome of a call into the link. *)
Definition link_silent (a : action) : Prop :=
  match a with
  | Prod Tau | Tick _ | Main _ => True
  | Prod _ => False
  end.

(** The four series and the counter. *)
Definition series (x : globals)
    : deque Z * deque Q * deque Q * deque Q * nat :=
  (timestamps x, roll_data x, pitch_data x, yaw_data x, data_count x).

(** The producer has left the loop, or is at a point of it from which a
    cleared [running] flag leads out before any append. *)
Definition before_check (p : ppc) : bool :=
  match p with
  | PNext _ | PIter _ _ AtCheckRunning
  | PExitLogger _ | PExitLink _ | PHandler _ | PDone | PUncaught _ => true
  | _ => false
  end.

(** No exception that [except Exception] would miss is in flight. *)
Definition catchable (p : ppc) : Prop :=
  match p with
  | PExitLogger (Some e) | PExitLink (Some e) | PHandler e =>
      is_Exception e = true
  | PUncaught _ => False
  | _ => True
  end.

(** The producer is in the loop with an elapsed deadline. *)
Definition overdue (s : sys) : Prop :=
  match producer s with
  | PNext endTime | PIter endTime _ _ => (endTime < clock s)%Q
  | _ => True
  end.

Definition waiting (p : ppc) : bool :=
  match p with PNext _ => true | _ => false end.

(** The counts read by the ticks so far never decrease, and none exceeds
    the counter. *)
Definition counts_sorted (s : sys) : Prop :=
  StronglySorted le (snap_count <$> snapshots s) ∧
  Forall (fun sn => snap_count sn ≤ data_count (g s)) (snapshots s).

(** Before line 181 the producer has not started. *)
Definition not_started (s : sys) : Prop :=
  before_start (main s) = true → producer s = PIdle.

(** The loop has seen, or will see before any append, the flag cleared. *)
Definition stopped (s : sys) : Prop :=
  running (g s) = false ∧ before_start (main s) = false ∧
  before_check (producer s) = true.

(** The thread function has returned after printing its report on [e]. *)
Definition reported (e : exn) (s s' : sys) : Prop :=
  producer s' = PDone ∧ is_alive (producer s') = false ∧
  stdout s' = stdout s ++ [MsgError e; MsgCheckDrone] ∧ g s' = g s.

(** The loop was waiting at line 135 with the deadline [endTime] elapsed
    when [fetched0] had been yielded; since then it has taken at most one
    more frame and will not wait for another. *)
Definition last_round (endTime : Q) (fetched0 : list frame) (s : sys)
    : Prop :=
  before_start (main s) = false ∧
  match producer s with
  | PNext e => e = endTime ∧ fetched s = fetched0 ∧ (endTime < clock s)%Q
  | PIter e f _ => (e < clock s)%Q ∧ fetched s = fetched0 ++ [f]
  | PExitLogger _ | PExitLink _ | PHandler _ | PDone | PUncaught _ =>
      fetched s = fetched0 ∨ ∃ f, fetched s = fetched0 ++ [f]
  | _ => False
  end.

(** *** Vocabulary of the further properties *)

(** [data_lock] is held by the thread that is inside its
    [with data_lock] block, and by no thread otherwise. *)
Definition lock_discipline (s : sys) : Prop :=
  data_lock (g s) =
    (if in_critical (producer s) then Some Producer
     else if animating (main s) then Some MainThread else None) ∧
  (in_critical (producer s) = true → animating (main s) = false).

(** A series created by [deque(maxlen=1000)] (lines 33-36) that holds no
    more than that. *)
Definition within_capacity {A} (d : deque A) : Prop :=
  Deque.maxlen d = 1000 ∧ Deque.len d ≤ 1000.

Definition series_bounded (x : globals) : Prop :=
  within_capacity (timestamps x) ∧ within_capacity (roll_data x) ∧
  within_capacity (pitch_data x) ∧ within_capacity (yaw_data x).

(** The lines of line 151, one for each frame stored. *)
Definition is_frame_line (m : message) : bool :=
  match m with MsgFrame _ _ _ => true | _ => false end.

Definition printed (out : list message) : nat :=
  length (List.filter is_frame_line out).

(** The keys of [log_entry[1]] that lines 146-148 have read when the
    loop is at [at_]. *)
Definition read_so_far (at_ : loop_point) (f : frame) : Prop :=
  match at_ with
  | AtAppendPitch => is_Some (f_data f !! "stabilizer.roll")
  | AtAppendYaw =>
      is_Some (f_data f !! "stabilizer.roll") ∧
      is_Some (f_data f !! "stabilizer.pitch")
  | AtIncrement | AtUnlock | AtPrint | AtCheckDeadline => frame_ok f
  | _ => True
  end.

(** Whether line 149 has counted, and line 151 printed, the frame of the
    current iteration. *)
Definition counted (at_ : loop_point) : nat :=
  match at_ with AtUnlock | AtPrint | AtCheckDeadline => 1 | _ => 0 end.

Definition shown (at_ : loop_point) : nat :=
  match at_ with AtCheckDeadline => 1 | _ => 0 end.

(** The frames taken from the iterator against the counter and the lines
    printed, at each point of the producer. *)
Definition ledger (s : sys) : Prop :=
  match producer s with
  | PIdle | PStart | PConnect | PSubscribe | PSetDeadline =>
      fetched s = [] ∧ data_count (g s) = 0 ∧ printed (stdout s) = 0
  | PNext _ =>
      Forall frame_ok (fetched s) ∧
      data_count (g s) = length (fetched s) ∧
      printed (stdout s) = length (fetched s)
  | PIter _ f at_ =>
      ∃ pre, fetched s = pre ++ [f] ∧ Forall frame_ok pre ∧
        read_so_far at_ f ∧
        data_count (g s) = length pre + counted at_ ∧
        printed (stdout s) = length pre + shown at_
  | _ =>
      ∃ pre rest, fetched s = pre ++ rest ∧ Forall frame_ok pre ∧
        length rest ≤ 1 ∧ data_count (g s) = length pre ∧
        printed (stdout s) = length pre
  end.

(** The main thread is past [data_thread.join()] (line 192), or dead. *)
Definition after_join (m : mpc) : bool :=
  match m with MSleep | MDone | MKilled _ => true | _ => false end.

(** A total printed by line 195 is the final value of the counter. *)
Definition total_final (s : sys) : Prop :=
  ∀ n, MsgTotal n ∈ stdout s →
       n = data_count (g s) ∧ is_alive (producer s) = false ∧
       after_join (main s) = true.

(** Every curve of a drawing has as many abscissas as ordinates, which
    [Axes.plot] requires of its two arguments. *)
Definition aligned (cmds : list draw) : Prop :=
  ∀ ax xs ys fmt, Plot ax xs ys fmt ∈ cmds → length xs = length ys.

(** *** Sample runs *)

Definition sample_frame (t : Z) (roll : Q) : frame := {|
  f_timestamp := t;
  f_data := <["stabilizer.roll" := roll]>
              (<["stabilizer.pitch" := 0%Q]>
                 (<["stabilizer.yaw" := 0%Q]> ∅));
  f_logconf := "Stabilizer"
|}.

(** Lines 160-181 and 122-133: the window is set up, the thread started,
    the link opened, the subscription started, the deadline computed. *)
Definition startup : list action :=
  [ Main Go; Main Go; Main Go;
    Prod Tau; Prod LinkOk; Prod LinkOk; Prod Tau ].

(** One iteration of the loop on [f], the flag being set. *)
Definition one_frame (f : frame) : list action :=
  Prod (LinkFrame f) :: repeat (Prod Tau) 10.

(** The main thread enters [plt.pause] and the animation timer fires. *)
Definition one_tick : list action := [ Main Go; Main Timer; Main Go ].

(** Both [with] blocks of the producer exit. *)
Definition shutdown : list action := [ Prod LinkOk; Prod LinkOk ].

(** The run ends on the deadline: one frame arrives 61 s after the start,
    the thread leaves the loop, the main thread joins it and returns. *)
Definition timed_out_run : list action :=
  startup ++ [ Tick 61 ] ++ one_frame (sample_frame 1000 1)
    ++ shutdown ++ [ Main Go; Main Go; Main Go ].

(** A run with three frames, ticks in between, one of them while the
    producer is between two frames. *)
Definition sample_run : list action :=
  startup ++ one_frame (sample_frame 1000 0) ++ one_tick
    ++ one_frame (sample_frame 1010 1) ++ one_frame (sample_frame 1020 2)
    ++ [ Main Go ] ++ one_tick.

(** The deadline of 60 s passes, and an hour more, without a frame. *)
Definition overdue_run : list action :=
  startup ++ [ Tick 61; Main Go; Tick 3600 ].

(** The user interrupts the main loop while the producer waits. *)
Definition interrupted_run : list action :=
  startup ++ [ Main Go; Main Interrupt ].

(** The thread has been started and is about to open the link. *)
Definition connecting_run : list action :=
  [ Main Go; Main Go; Main Go; Prod Tau ].

(** The state reached by a schedule from the initial state at time 0. *)
Definition state_after (sched : list action) : sys :=
  default (init 0) (run sched (init 0)).

(** A frame whose data lack the pitch. *)
Definition pitchless_frame : frame := {|
  f_timestamp := 1010;
  f_data := <["stabilizer.roll" := 1%Q]> (<["stabilizer.yaw" := 0%Q]> ∅);
  f_logconf := "Stabilizer"
|}.

(** The producer has taken a first frame and is between the appends of
    lines 145 and 146. *)
Definition mid_frame_run : list action :=
  startup ++ [ Prod (LinkFrame (sample_frame 1000 0));
               Prod Tau; Prod Tau; Prod Tau ].

(** A good frame, then one without pitch: line 147 raises [KeyError],
    both [with] blocks exit and the handler of line 155 reports it. *)
Definition malformed_run : list action :=
  startup ++ one_frame (sample_frame 1000 0)
    ++ Prod (LinkFrame pitchless_frame) :: repeat (Prod Tau) 5
    ++ shutdown ++ [ Prod Tau ].

End Basiclog.

(** ** [scripts/test_hover.py] *)

Module Hover.

(** The blocking calls of the script, in the vocabulary of the vehicle. *)
Inductive command : Type :=
| InitDrivers               (* line 18 *)
| OpenLink                  (* line 20: SyncCrazyflie.__enter__ *)
| SendArmingRequest         (* line 22 *)
| Sleep (seconds : Q)       (* lines 23, 27, 35 *)
| TakeOff                   (* line 26: MotionCommander.__enter__ *)
| Up (distance_m : Q)       (* line 29 *)
| Down (distance_m : Q)     (* line 33 *)
| Stop                      (* line 37 *)
| Land                      (* line 39: MotionCommander.__exit__ *)
| CloseLink.                (* SyncCrazyflie.__exit__ *)

(** A call that was issued, with the exception it raised if any. *)
Definition event : Type := command * option exn.

(** Script code runs against a [fate], which decides for the n-th call
    issued whether it returns or raises (a timeout of the vehicle, a lost
    link, a [KeyboardInterrupt] delivered while the call blocks), and
    threads the list of calls issued so far. *)
Definition M (A : Type) : Type :=
  (nat → option exn) → list event → result A * list event.

#[export] Instance M_ret : MRet M := fun A a _ tr => (Ok a, tr).
#[export] Instance M_bind : MBind M := fun A B k m fate tr =>
  match m fate tr with
  | (Ok a, tr') => k a fate tr'
  | (Raise e, tr') => (Raise e, tr')
  end.

Definition call (c : command) : M unit := fun fate tr =>
  let outcome := fate (length tr) in
  (match outcome with None => Ok () | Some e => Raise e end,
   tr ++ [(c, outcome)]).

(** A context manager: [__enter__], and [__exit__] which receives the
    exception in flight, if any, and answers whether to swallow it. *)
Record context_manager : Type := {
  enter : M unit;
  exit : option exn → M bool
}.

(** The [with] statement (PEP 343): [__exit__] runs after the block on
    every way out of it; an exception of the block is raised again unless
    [__exit__] answers true; an exception of [__exit__] itself replaces
    it.  When [__enter__] raises, neither the block nor [__exit__] runs. *)
Definition with_ (cm : context_manager) (block : M unit) : M unit :=
  fun fate tr =>
    match enter cm fate tr with
    | (Raise e, tr1) => (Raise e, tr1)
    | (Ok _, tr1) =>
        match block fate tr1 with
        | (Ok _, tr2) =>
            match exit cm None fate tr2 with
            | (Ok _, tr3) => (Ok (), tr3)
            | (Raise e', tr3) => (Raise e', tr3)
            end
        | (Raise e, tr2) =>
            match exit cm (Some e) fate tr2 with
            | (Ok true, tr3) => (Ok (), tr3)
            | (Ok false, tr3) => (Raise e, tr3)
            | (Raise e', tr3) => (Raise e', tr3)
            end
        end
    end.

(** cflib's two context managers, by their contract: the link is opened on
    entry and closed on exit; the commander takes off on entry and lands on
    exit (lines 25 and 39 of the script say so).  Neither swallows an
    exception. *)
Definition SyncCrazyflie : context_manager := {|
  enter := call OpenLink;
  exit := fun _ => call CloseLink;; mret false
|}.

Definition MotionCommander : context_manager := {|
  enter := call TakeOff;
  exit := fun _ => call Land;; mret false
|}.

(** Lines 27-37: the scripted sequence. *)
Definition sequence : M unit :=
  call (Sleep 1);;
  call (Up (7 # 10));;
  call (Down (7 # 10));;
  call (Sleep 1);;
  call Stop.

(** Lines 21-39: the block of the outer [with]. *)
Definition armed_flight : M unit :=
  call SendArmingRequest;;
  call (Sleep 1);;
  with_ MotionCommander sequence.

(** Lines 16-39. *)
Definition main : M unit :=
  call InitDrivers;;
  with_ SyncCrazyflie armed_flight.

(** The flight scope was entered: the take-off of line 26 returned. *)
Definition entered (tr : list event) : Prop := (TakeOff, None) ∈ tr.

Definition is_land (ev : event) : bool :=
  match ev.1 with Land => true | _ => false end.

Definition is_close (ev : event) : bool :=
  match ev.1 with CloseLink => true | _ => false end.

(** How many of the calls issued satisfy [p]. *)
Definition issued (p : event → bool) (tr : list event) : nat :=
  length (List.filter p tr).

(** Neither a take-off nor one of the two exit calls. *)
Definition ordinary (ev : event) : bool :=
  match ev.1 with Land | CloseLink | TakeOff => false | _ => true end.

(** What a run of plain calls returns: the exception of its last call, if
    that call raised. *)
Definition raised (evs : list event) : result unit :=
  match last evs with
  | Some (_, Some e) => Raise e
  | _ => Ok ()
  end.

(** A block made of ordinary calls that stops at the first one to raise. *)
Definition plain (b : M unit) : Prop :=
  ∀ fate tr, ∃ evs, b fate tr = (raised evs, tr ++ evs) ∧
                    forallb ordinary evs = true.

(** What a [with] statement returns when its exit call had the outcome
    [exit_outcome] and its block returned [rb]. *)
Definition scope_result (exit_outcome : option exn) (rb : result unit)
    : result unit :=
  match exit_outcome with
  | Some e => Raise e
  | None => rb
  end.

(** Sample fates: every call returns; the call number [n] raises [e]. *)
Definition calm : nat → option exn := fun _ => None.

Definition fails_at (n : nat) (e : exn) : nat → option exn :=
  fun k => if (k =? n)%nat then Some e else None.

(** The ascent of line 29, the seventh call of the script, times out. *)
Definition ascent_times_out : nat → option exn :=
  fails_at 6 (LinkError "MotionTimeout").

(** The call returned. *)
Definition returned (ev : event) : Prop := ev.2 = None.

(** A block that appends the calls it issues to the trace, returns
    normally exactly when all of them returned, and raises only what one
    of them raised. *)
Definition honest (b : M unit) : Prop :=
  ∀ fate tr, ∃ evs,
    (b fate tr).2 = tr ++ evs ∧
    ((b fate tr).1 = Ok () ↔ Forall returned evs) ∧
    (∀ e, (b fate tr).1 = Raise e → ∃ c, (c, Some e) ∈ evs).

(** The motion commands of lines 29-37. *)
Definition is_motion (ev : event) : bool :=
  match ev.1 with Up _ | Down _ | Stop => true | _ => false end.

(** Calls that acquired something: a take-off, the opening of the link
    and the arming request that returned. *)
Definition took_off (ev : event) : bool :=
  match ev with (TakeOff, None) => true | _ => false end.

Definition opened (ev : event) : bool :=
  match ev with (OpenLink, None) => true | _ => false end.

Definition armed (ev : event) : bool :=
  match ev with (SendArmingRequest, None) => true | _ => false end.

End Hover.

(** * Properties *)

(** ** The bounded series *)

Section deque_facts.
Context {A : Type}.
Implicit Types (d : deque A) (x : A) (xs : list A).

Lemma maxlen_append_all d xs :
  Deque.maxlen (Deque.append_all d xs) = Deque.maxlen d.
Proof.
  revert d. induction xs as [|x xs IH]; intros d; [done|].
  change (Deque.append_all d (x :: xs))
    with (Deque.append_all (Deque.append d x) xs).
  by rewrite IH.
Qed.

Lemma append_all_snoc d xs x :
  Deque.append_all d (xs ++ [x]) = Deque.append (Deque.append_all d xs) x.
Proof. unfold Deque.append_all. by rewrite foldl_app. Qed.

Lemma tail_drop (l : list A) n : tail (drop n l) = drop (S n) l.
Proof. revert l. induction n as [|n IH]; intros [|y l]; cbn; auto. Qed.

(** Appending [xs] to an empty deque of capacity [N] leaves [xs] without
    its first [length xs - N] items. *)
Lemma items_append_all N xs :
  Deque.items (Deque.append_all (Deque.new N) xs) = drop (length xs - N) xs.
Proof.
  induction xs as [|x xs IH] using rev_ind; [by destruct N|].
  rewrite append_all_snoc. unfold Deque.append at 1. cbn [Deque.items].
  rewrite maxlen_append_all. cbn [Deque.new Deque.maxlen]. rewrite IH.
  rewrite !length_app, length_drop. cbn [length].
  destruct (N <? length xs - (length xs - N) + 1)%nat eqn:E.
  - apply Nat.ltb_lt in E.
    replace (length xs + 1 - N) with (S (length xs - N)) by lia.
    rewrite <- (drop_app_le xs [x]) by lia.
    apply tail_drop.
  - apply Nat.ltb_ge in E.
    replace (length xs - N) with 0 by lia.
    replace (length xs + 1 - N) with 0 by lia. done.
Qed.

(** C2: for every capacity [N] and every sequence [xs] of [M] appended
    values, the series read back is the last [min M N] values of [xs] in
    insertion order and has length [min M N]; when [M > N] the length is
    [N] and exactly the oldest [M - N] values are gone; when [M <= N] the
    length is [M] and the series is all of [xs]. *)
Theorem bounded_series_keeps_last (N : nat) (xs : list A) :
  Deque.to_list (Deque.append_all (Deque.new N) xs)
    = drop (length xs - Nat.min (length xs) N) xs ∧
  Deque.len (Deque.append_all (Deque.new N) xs) = Nat.min (length xs) N ∧
  (N < length xs →
     Deque.len (Deque.append_all (Deque.new N) xs) = N ∧
     take (length xs - N) xs
       ++ Deque.to_list (Deque.append_all (Deque.new N) xs) = xs) ∧
  (length xs ≤ N →
     Deque.len (Deque.append_all (Deque.new N) xs) = length xs ∧
     Deque.to_list (Deque.append_all (Deque.new N) xs) = xs).
Proof.
  unfold Deque.to_list, Deque.len. rewrite items_append_all, length_drop.
  replace (length xs - Nat.min (length xs) N) with (length xs - N) by lia.
  repeat split; try lia.
  - apply take_drop.
  - replace (length xs - N) with 0 by lia. done.
Qed.
End deque_facts.

(** Capacity 5: seven appends keep the last five, two appends keep both. *)
Lemma bounded_series_keeps_last_witness :
  5 < length [0; 1; 2; 3; 4; 5; 6]%Z ∧
  Deque.to_list (Deque.append_all (Deque.new 5) [0; 1; 2; 3; 4; 5; 6]%Z)
    = [2; 3; 4; 5; 6]%Z ∧
  length [7; 8]%Z ≤ 5 ∧
  Deque.to_list (Deque.append_all (Deque.new 5) [7; 8]%Z) = [7; 8]%Z.
Proof.
  destruct (bounded_series_keeps_last 5 [0; 1; 2; 3; 4; 5; 6]%Z)
    as (Hlast & _ & _ & _).
  destruct (bounded_series_keeps_last 5 [7; 8]%Z) as (_ & _ & _ & Hall).
  split; [cbn; lia|]. split; [exact Hlast|].
  split; [cbn; lia|]. apply Hall. cbn; lia.
Defined.

(** ** The render tick *)

Section animate_facts.
Import Basiclog.
Implicit Types (x : globals) (l : list Q).

Lemma ylimits_ok l :
  ∃ cmds, ylimits l = Ok cmds ∧
          forallb (fun c => negb (is_plot c || is_text c)) cmds = true.
Proof. destruct l as [|y l]; cbn; eauto. Qed.

Lemma getitem_last_ok {A} (y : A) (l' : list A) :
  ∃ z, getitem_last (y :: l') = Ok z.
Proof.
  unfold getitem_last.
  destruct (last (y :: l')) as [z|] eqn:E; [eauto|].
  by apply last_None in E.
Qed.

Lemma xlimits_ok l :
  ∃ cmds, xlimits l = Ok cmds ∧
          forallb (fun c => negb (is_plot c || is_text c)) cmds = true.
Proof.
  unfold xlimits. destruct l as [|y l]; [cbn; eauto|].
  destruct (getitem_last_ok y l) as [z ->]. cbn. eauto.
Qed.

Lemma first_ok {A} (d : deque A) :
  0 < Deque.len d → ∃ y, Deque.first d = Ok y.
Proof.
  unfold Deque.len, Deque.first. destruct (Deque.items d); cbn; [lia|eauto].
Qed.

Lemma animate_waiting x :
  Deque.len (timestamps x) ≤ 2 →
  animate x = Ok (placeholder (data_count x)).
Proof.
  intros H. unfold animate.
  destruct (2 <? Deque.len (timestamps x)) eqn:E; [|done].
  apply Nat.ltb_lt in E. lia.
Qed.

Lemma animate_plotting x :
  2 < Deque.len (timestamps x) →
  ∃ start_time ylim xlim,
    Deque.first (timestamps x) = Ok start_time ∧
    forallb (fun c => negb (is_plot c || is_text c)) (ylim ++ xlim) = true ∧
    animate x =
      Ok (curves (elapsed start_time (Deque.to_list (timestamps x)))
            (Deque.to_list (roll_data x)) (Deque.to_list (pitch_data x))
            (Deque.to_list (yaw_data x)) (data_count x) ++ ylim ++ xlim).
Proof.
  intros H.
  destruct (first_ok (timestamps x)) as [t0 Ht0]; [lia|].
  destruct (ylimits_ok (Deque.to_list (roll_data x)
              ++ Deque.to_list (pitch_data x)
              ++ Deque.to_list (yaw_data x))) as (ylim & Hy & Hyc).
  destruct (xlimits_ok (elapsed t0 (Deque.to_list (timestamps x))))
    as (xlim & Hx & Hxc).
  exists t0, ylim, xlim. split; [done|]. split.
  { rewrite forallb_app. by rewrite Hyc, Hxc. }
  unfold animate. apply Nat.ltb_lt in H. rewrite H, Ht0.
  cbn [mbind result_bind]. rewrite Hy. cbn [mbind result_bind].
  by rewrite Hx.
Qed.

Lemma no_text (cs : list draw) :
  forallb (fun c => negb (is_plot c || is_text c)) cs = true →
  existsb is_text cs = false.
Proof.
  induction cs as [|c cs IH]; cbn; [done|].
  intros [Hc Hl]%andb_prop. rewrite (IH Hl).
  destruct (is_text c); [|done]. by rewrite orb_true_r in Hc.
Qed.

(** C6: on every tick, when the series of timestamps read under the lock
    holds at most 2 samples the calls made are exactly those of the
    "waiting" placeholder, none of which plots; when it holds more than 2
    the curves are plotted and no placeholder text is drawn. *)
Theorem animate_threshold x :
  (Deque.len (timestamps x) ≤ 2 →
     animate x = Ok (placeholder (data_count x)) ∧
     existsb is_plot (placeholder (data_count x)) = false ∧
     existsb is_text (placeholder (data_count x)) = true) ∧
  (2 < Deque.len (timestamps x) →
     ∃ cmds, animate x = Ok cmds ∧
             existsb is_plot cmds = true ∧ existsb is_text cmds = false).
Proof.
  split; intros H.
  - split; [by apply animate_waiting | done].
  - destruct (animate_plotting x H) as (t0 & ylim & xlim & _ & Hc & ->).
    eexists; split; [done|]. split; [done|].
    rewrite existsb_app. cbn [curves existsb is_text orb].
    by apply no_text.
Qed.

End animate_facts.

(** Two samples give the placeholder, three give the curves. *)
Lemma animate_threshold_witness :
  Basiclog.animate
    (Basiclog.set_timestamps (Basiclog.stored [1000; 1500]%Z)
       Basiclog.globals0)
    = Ok (Basiclog.placeholder 0) ∧
  ∃ cmds,
    Basiclog.animate
      (Basiclog.set_timestamps (Basiclog.stored [1000; 1500; 2000]%Z)
         Basiclog.globals0) = Ok cmds ∧
    existsb Basiclog.is_plot cmds = true.
Proof.
  split.
  - apply (animate_threshold
             (Basiclog.set_timestamps (Basiclog.stored [1000; 1500]%Z)
                Basiclog.globals0)).
    cbn. lia.
  - destruct (animate_threshold
                (Basiclog.set_timestamps
                   (Basiclog.stored [1000; 1500; 2000]%Z) Basiclog.globals0))
      as [_ Hplot].
    destruct Hplot as (cmds & Hc & Hp & _); [cbn; lia|]. eauto.
Defined.

(** ** The two threads of [test_basiclog.py] *)

(** Case analysis on one step of the system. *)
Ltac step_inv H :=
  unfold Basiclog.step, Basiclog.pstep, Basiclog.mstep,
    Basiclog.append_channel, Basiclog.on_interrupt in H;
  repeat match type of H with
         | context [match ?x with _ => _ end] =>
             destruct x eqn:?; try discriminate H
         end;
  simplify_eq/=.

Section threads.
Import Basiclog.
Implicit Types (s : sys) (a : action) (sched : list action).
Implicit Types (p : ppc) (m : mpc) (f : frame) (done : list frame).

Lemma run_app sched1 sched2 s :
  run (sched1 ++ sched2) s = run sched1 s ≫= run sched2.
Proof.
  revert s. induction sched1 as [|a sched1 IH]; intros s; cbn; [done|].
  destruct (step a s); cbn; auto.
Qed.

(** An invariant of the steps holds after every schedule. *)
Lemma run_invariant (P : action → Prop) (I : sys → Prop) :
  (∀ a s s', P a → step a s = Some s' → I s → I s') →
  ∀ sched s s', Forall P sched → run sched s = Some s' → I s → I s'.
Proof.
  intros Hstep sched. induction sched as [|a sched IH]; intros s s' HP H HI.
  - cbn in H. by simplify_eq.
  - apply Forall_cons in HP as [Ha HP]. cbn in H.
    destruct (step a s) as [s1|] eqn:E; [|done]. eauto.
Qed.

Lemma Forall_True {X} (l : list X) : Forall (fun _ => True) l.
Proof. by apply Forall_forall. Qed.

(** *** The series agree with the frames stored *)

Lemma stored_snoc {X} (xs : list X) y :
  stored (xs ++ [y]) = Deque.append (stored xs) y.
Proof. apply append_all_snoc. Qed.

Lemma stored_length {X} (xs : list X) :
  length (Deque.to_list (stored xs)) = Nat.min (length xs) 1000.
Proof.
  unfold stored, Deque.to_list. rewrite items_append_all, length_drop. lia.
Qed.

Lemma coherent_balanced sn : coherent sn → balanced sn.
Proof.
  intros (frames & _ & ->). unfold balanced; cbn.
  by rewrite !stored_length, !length_fmap.
Qed.

Lemma partial_outside p :
  in_critical p = false → partial p = ([], [], [], []).
Proof. by destruct p as [| | | | | |? ? []| | | | |]. Qed.

Lemma frame_ok_roll f :
  frame_ok f → f_data f !! "stabilizer.roll" = Some (roll_of f).
Proof. intros ([v E] & _). unfold roll_of. by rewrite E. Qed.

Lemma frame_ok_pitch f :
  frame_ok f → f_data f !! "stabilizer.pitch" = Some (pitch_of f).
Proof. intros (_ & [v E] & _). unfold pitch_of. by rewrite E. Qed.

Lemma frame_ok_yaw f :
  frame_ok f → f_data f !! "stabilizer.yaw" = Some (yaw_of f).
Proof. intros (_ & _ & [v E]). unfold yaw_of. by rewrite E. Qed.

Lemma init_consistent t0 : consistent [] (init t0).
Proof. by split. Qed.


Ltac field_by_field :=
  split; cbn in *;
  repeat match goal with
         | Hc : in_critical ?p = false |- _ =>
             rewrite ?(partial_outside p Hc) in *; rewrite ?Hc; clear Hc
         | Ha : animating ?m = false |- _ => rewrite ?Ha; clear Ha
         end;
  cbn in *; rewrite ?app_nil_r in *; rewrite ?fmap_app, ?length_app; cbn;
  rewrite ?stored_snoc;
  try done;
  try (intros Hb;
       match goal with
       | Hi : _ → _ = PIdle |- _ => by specialize (Hi Hb)
       end);
  try (intros ? [= <-]; auto; fail);
  try (apply Forall_app; split; [done|]; apply Forall_singleton;
       first [ done | eexists; split; [eassumption|reflexivity] ]).

Lemma step_consistent a s s' done :
  well_formed a → step a s = Some s' → consistent done s →
  ∃ done', consistent done' s'.
Proof.
  intros Hwf H Hc.
  destruct s as [[ts rl pt yw lk cnt rn] p m clk out scr snaps fet].
  destruct Hc. cbn in *. step_inv H.
  all: try match goal with
           | Hi : true = true → _ = PIdle |- _ =>
               pose proof (Hi eq_refl); simplify_eq/=
           end.
  all: try match goal with
           | Hf : ∀ f, Some ?y = Some f → frame_ok f |- _ =>
               pose proof (Hf y eq_refl) as Hok;
               pose proof (frame_ok_roll y Hok);
               pose proof (frame_ok_pitch y Hok);
               pose proof (frame_ok_yaw y Hok); simplify_eq
           end.
  all: try (destruct (animating m) eqn:Hanim;
            [by (try specialize (c_excl0 eq_refl))|]).
  all: try (destruct (in_critical p) eqn:Hcrit;
            [by (try specialize (c_excl0 eq_refl))|]).
  all: try (exists done; field_by_field; fail).
  all: try (exists (done ++ [log_entry]); field_by_field; fail).
Qed.

Lemma run_consistent t0 sched s :
  Forall well_formed sched → run sched (init t0) = Some s →
  ∃ done, consistent done s.
Proof.
  intros Hwf H.
  apply (run_invariant well_formed (fun s => ∃ done, consistent done s))
    with (sched := sched) (s := init t0); try done.
  - intros a s1 s2 Ha Hs [done Hc]. by eapply step_consistent.
  - exists []. apply init_consistent.
Qed.



(** *** The counter *)

Lemma step_count a s s' :
  step a s = Some s' →
  data_count (g s') = data_count (g s) ∨
  (a = Prod Tau ∧ (∃ e f, producer s = PIter e f AtIncrement) ∧
   data_count (g s') = data_count (g s) + 1).
Proof.
  intros H.
  destruct s as [[ts rl pt yw lk cnt rn] p m clk out scr snaps fet].
  cbn in *. step_inv H; eauto 10.
Qed.

Lemma step_snapshots a s s' :
  step a s = Some s' →
  snapshots s' = snapshots s ∨
  (snapshots s' = snapshots s ++ [observe (g s)] ∧
   data_count (g s') = data_count (g s)).
Proof.
  intros H.
  destruct s as [[ts rl pt yw lk cnt rn] p m clk out scr snaps fet].
  cbn in *. step_inv H; auto.
Qed.

Lemma step_counts_sorted a s s' :
  step a s = Some s' → counts_sorted s → counts_sorted s'.
Proof.
  intros H [Hsorted Hbound].
  assert (data_count (g s) ≤ data_count (g s')) as Hle.
  { destruct (step_count a s s' H) as [->|(_ & _ & ->)]; lia. }
  unfold counts_sorted.
  destruct (step_snapshots a s s' H) as [E|[E Hsame]]; rewrite E; split.
  - done.
  - eapply Forall_impl; [exact Hbound|]. cbn. intros; lia.
  - rewrite fmap_app. apply StronglySorted_app.
    split; [|split; [done|cbn; repeat constructor]].
    intros n1 n2 Hn1 ->%list_elem_of_singleton.
    apply list_elem_of_fmap in Hn1 as (sn & -> & Hsn).
    rewrite Forall_forall in Hbound. by apply Hbound.
  - apply Forall_app; split.
    + eapply Forall_impl; [exact Hbound|]. cbn. intros; lia.
    + apply Forall_singleton. cbn. lia.
Qed.

(** C8: along every interleaving, the counts read by successive ticks
    are non-decreasing and bounded by the counter; a step leaves the
    counter unchanged unless it is the producer's step at line 149, which
    adds exactly one; that step is always enabled there; and when the
    link delivers frames of the subscription the counter equals the
    number of frames stored in the series. *)
Theorem sample_count_monotone t0 sched s :
  run sched (init t0) = Some s →
  StronglySorted le (snap_count <$> snapshots s) ∧
  Forall (fun sn => snap_count sn ≤ data_count (g s)) (snapshots s) ∧
  (∀ a s', step a s = Some s' →
     data_count (g s') = data_count (g s) ∨
     (a = Prod Tau ∧ (∃ e f, producer s = PIter e f AtIncrement) ∧
      data_count (g s') = data_count (g s) + 1)) ∧
  (∀ e f, producer s = PIter e f AtIncrement →
     ∃ s', step (Prod Tau) s = Some s' ∧
           data_count (g s') = data_count (g s) + 1) ∧
  (Forall well_formed sched →
     ∃ done, consistent done s ∧ data_count (g s) = length done).
Proof.
  intros H.
  assert (counts_sorted s) as [Hsorted Hbound].
  { apply (run_invariant (fun _ => True) counts_sorted)
      with (sched := sched) (s := init t0); try done.
    - intros a s1 s2 _. apply step_counts_sorted.
    - apply Forall_True.
    - split; cbn; constructor. }
  repeat split; try done.
  - intros a s'. apply step_count.
  - intros e f Hp. cbn. unfold pstep. rewrite Hp. eauto.
  - intros Hwf. destruct (run_consistent t0 sched s Hwf H) as [done Hc].
    exists done. split; [done|]. by destruct Hc.
Qed.

(** *** The stop flag *)

Lemma step_running a s s' :
  step a s = Some s' →
  running (g s') = running (g s) ∨
  (a = Main Interrupt ∧ running (g s') = false ∧
   (main s = MLoop ∨ main s = MPause LoopPause
    ∨ main s = MAnimate LoopPause)).
Proof.
  intros H.
  destruct s as [[ts rl pt yw lk cnt rn] p m clk out scr snaps fet].
  cbn in *. step_inv H; auto; right; auto 6.
Qed.

Lemma step_not_started a s s' :
  step a s = Some s' → not_started s → not_started s'.
Proof.
  unfold not_started. intros H Hi.
  destruct s as [[ts rl pt yw lk cnt rn] p m clk out scr snaps fet].
  cbn in *. step_inv H; intros Hb; try done.
  all: first [ by specialize (Hi Hb) | by specialize (Hi eq_refl) ].
Qed.

Lemma run_not_started t0 sched s :
  run sched (init t0) = Some s → not_started s.
Proof.
  intros H.
  apply (run_invariant (fun _ => True) not_started)
    with (sched := sched) (s := init t0); try done.
  - intros a s1 s2 _. apply step_not_started.
  - apply Forall_True.
Qed.

Lemma step_stopped a s s' :
  step a s = Some s' → stopped s →
  stopped s' ∧ series (g s') = series (g s).
Proof.
  intros H (Hr & Hm & Hp).
  destruct s as [[ts rl pt yw lk cnt rn] p m clk out scr snaps fet].
  cbn in *. subst rn. unfold stopped. step_inv H; auto.
Qed.

Lemma run_stopped sched s s' :
  run sched s = Some s' → stopped s →
  stopped s' ∧ series (g s') = series (g s).
Proof.
  revert s. induction sched as [|a sched IH]; intros s H Hs; cbn in H.
  - by simplify_eq.
  - destruct (step a s) as [s1|] eqn:E; [|done].
    destruct (step_stopped a s s1 E Hs) as [Hs1 E1].
    destruct (IH s1 H Hs1) as [Hs' E']. split; [done|]. congruence.
Qed.

(** C10: a frame yielded by the iterator goes to the check of line 136
    before anything else; when that check finds the flag cleared the
    loop is left with the globals untouched; and from any reachable
    state in which the flag is cleared and the producer waits for a
    frame, is at the check, or has left the loop, no later step of any
    interleaving changes the four series or the counter. *)
Theorem no_append_after_stop t0 sched0 s :
  run sched0 (init t0) = Some s →
  running (g s) = false →
  before_check (producer s) = true →
  (∀ e f, producer s = PNext e →
     ∃ s1, step (Prod (LinkFrame f)) s = Some s1 ∧
           producer s1 = PIter e f AtCheckRunning ∧ g s1 = g s) ∧
  (∀ e f, producer s = PIter e f AtCheckRunning →
     ∃ s1, step (Prod Tau) s = Some s1 ∧
           producer s1 = PExitLogger None ∧ g s1 = g s) ∧
  (∀ sched s', run sched s = Some s' →
     series (g s') = series (g s) ∧ running (g s') = false ∧
     before_check (producer s') = true).
Proof.
  intros H Hr Hp. split; [|split].
  - intros e f E. cbn. unfold pstep. rewrite E. eauto.
  - intros e f E. cbn. unfold pstep. rewrite E, Hr. cbn. eauto.
  - intros sched s' H'.
    assert (stopped s) as Hs.
    { split; [done|]. split; [|done].
      pose proof (run_not_started t0 sched0 s H) as Hi.
      destruct (before_start (main s)) eqn:Hb; [|done].
      rewrite (Hi Hb) in Hp. done. }
    destruct (run_stopped sched s s' H' Hs) as [(? & ? & ?) ?]. auto.
Qed.

(** C4 as the code has it: the flag is true at the start; no step sets
    it back to true; the only step that clears it is the delivery of
    [KeyboardInterrupt] to the main thread inside the [try] of line 183,
    which always clears it; the check of line 136 and the loop condition
    of line 185 both read it. *)
Theorem stop_flag_lifecycle :
  (∀ t0, running (g (init t0)) = true) ∧
  (∀ a s s', step a s = Some s' →
     running (g s) = false → running (g s') = false) ∧
  (∀ a s s', step a s = Some s' →
     running (g s) = true → running (g s') = false →
     a = Main Interrupt ∧
     (main s = MLoop ∨ main s = MPause LoopPause
      ∨ main s = MAnimate LoopPause)) ∧
  (∀ s, main s = MLoop ∨ main s = MPause LoopPause
        ∨ main s = MAnimate LoopPause →
     ∃ s', step (Main Interrupt) s = Some s' ∧
           running (g s') = false ∧ main s' = MJoin) ∧
  (∀ s e f, producer s = PIter e f AtCheckRunning →
     ∃ s', step (Prod Tau) s = Some s' ∧ g s' = g s ∧
           producer s' =
             if running (g s) then PIter e f AtLock
             else PExitLogger None) ∧
  (∀ s, main s = MLoop →
     ∃ s', step (Main Go) s = Some s' ∧ g s' = g s ∧
           main s' =
             if running (g s) && is_alive (producer s)
             then MPause LoopPause else MJoin).
Proof.
  split; [done|]. split; [|split; [|split; [|split]]].
  - intros a s s' H Hr.
    destruct (step_running a s s' H) as [->|(_ & -> & _)]; done.
  - intros a s s' H Hr Hr'.
    destruct (step_running a s s' H) as [E|(-> & _ & Hm)]; [congruence|done].
  - intros s Hm. cbn. unfold mstep.
    destruct Hm as [->|[->| ->]]; eauto.
  - intros s e f E. cbn. unfold pstep. rewrite E.
    destruct (running (g s)); cbn; eauto.
  - intros s E. cbn. unfold mstep. rewrite E.
    destruct (running (g s) && is_alive (producer s)); eauto.
Qed.

(** *** Failures of the link *)

Lemma step_catchable a s s' :
  raises_Exception a → step a s = Some s' →
  catchable (producer s) → catchable (producer s').
Proof.
  intros Ha H Hc.
  destruct s as [[ts rl pt yw lk cnt rn] p m clk out scr snaps fet].
  cbn in *. step_inv H; cbn in *; try done.
  all: congruence.
Qed.

Lemma run_catchable t0 sched s :
  Forall raises_Exception sched → run sched (init t0) = Some s →
  catchable (producer s).
Proof.
  intros Hex H.
  by apply (run_invariant raises_Exception (fun s => catchable (producer s))
              step_catchable sched (init t0) s).
Qed.

(** C9: when the exceptions raised by the link are [Exception]s, the
    thread never dies on an exception; a failure to connect is reported
    and the thread function returns; so it is for a failure to start the
    log subscription and for a failure of the frame iterator, once the
    enclosing [with] blocks have run their exits. *)
Theorem link_failure_is_reported t0 sched s :
  Forall raises_Exception sched →
  run sched (init t0) = Some s →
  (∀ e, producer s ≠ PUncaught e) ∧
  (∀ e, is_Exception e = true → producer s = PConnect →
     ∃ s', run [Prod (LinkRaise e); Prod Tau] s = Some s' ∧
           reported e s s') ∧
  (∀ e, is_Exception e = true → producer s = PSubscribe →
     ∃ s', run [Prod (LinkRaise e); Prod LinkOk; Prod Tau] s = Some s' ∧
           reported e s s') ∧
  (∀ e endTime, is_Exception e = true → producer s = PNext endTime →
     ∃ s', run [Prod (LinkRaise e); Prod LinkOk; Prod LinkOk; Prod Tau] s
             = Some s' ∧
           reported e s s').
Proof.
  intros Hex H. split; [|split; [|split]].
  - intros e E. pose proof (run_catchable t0 sched s Hex H) as Hc.
    by rewrite E in Hc.
  - intros e He E. destruct s. cbn in E. subst. cbn. unfold pstep; cbn.
    rewrite He. by eexists.
  - intros e He E. destruct s. cbn in E. subst. cbn. unfold pstep; cbn.
    rewrite He. by eexists.
  - intros e endTime He E. destruct s. cbn in E. subst. cbn.
    unfold pstep; cbn. rewrite He. by eexists.
Qed.

(** *** The deadline *)

Lemma Qltb_lt (x y : Q) : Qltb x y = true ↔ (x < y)%Q.
Proof.
  unfold Qltb. rewrite negb_true_iff, <- not_true_iff_false, Qle_bool_iff.
  split; [apply Qnot_le_lt | apply Qlt_not_le].
Qed.

Lemma step_last_round endTime fetched0 a s s' :
  step a s = Some s' →
  last_round endTime fetched0 s → last_round endTime fetched0 s'.
Proof.
  intros H [Hm Hp].
  destruct s as [[ts rl pt yw lk cnt rn] p m clk out scr snaps fet].
  cbn in *. unfold last_round. step_inv H; cbn in *; try done.
  all: try (destruct Hp as (? & ? & ?); subst).
  all: try (destruct Hp as (? & ?); subst).
  all: try (split; [done|]; eauto; fail).
  - (* the clock advances *)
    match goal with
    | Hdt : Qle_bool 0 _ = true |- _ => apply Qle_bool_iff in Hdt
    end.
    split; [done|].
    destruct p; try done; intuition lra.
  - (* line 153 with the deadline elapsed *)
    match goal with Hq : Qltb _ _ = false |- _ =>
      apply not_true_iff_false in Hq; rewrite Qltb_lt in Hq end.
    done.
Qed.

Lemma step_silent_waiting endTime a s s' :
  link_silent a → step a s = Some s' →
  producer s = PNext endTime → before_start (main s) = false →
  producer s' = PNext endTime ∧ before_start (main s') = false ∧
  fetched s' = fetched s ∧ series (g s') = series (g s).
Proof.
  intros Ha H Hp Hm.
  destruct s as [[ts rl pt yw lk cnt rn] p m clk out scr snaps fet].
  cbn in *. subst p. step_inv H; cbn in *; done.
Qed.

(** C5 as the code has it: with the deadline elapsed while the loop
    waits for a frame, (1) as long as the link yields nothing the loop
    keeps waiting, whatever the clock, the flag and the main thread do;
    (2) along every interleaving the loop takes at most one more frame
    and never waits for a second one; (3) the producer, run on its own
    on a frame of the subscription, leaves the loop: at the check of
    line 136 when the flag is cleared, and at the check of line 153,
    after storing the frame, when it is set. *)
Theorem deadline_stops_at_next_frame s endTime :
  producer s = PNext endTime →
  (endTime < clock s)%Q →
  before_start (main s) = false →
  (∀ sched s', Forall link_silent sched → run sched s = Some s' →
     producer s' = PNext endTime ∧ fetched s' = fetched s ∧
     series (g s') = series (g s)) ∧
  (∀ sched s', run sched s = Some s' →
     (producer s' = PNext endTime ∧ fetched s' = fetched s) ∨
     (waiting (producer s') = false ∧
      (fetched s' = fetched s ∨ ∃ f, fetched s' = fetched s ++ [f]))) ∧
  (∀ f, frame_ok f → data_lock (g s) = None →
     ∃ s', run (Prod (LinkFrame f)
                  :: repeat (Prod Tau) (if running (g s) then 10 else 1)) s
             = Some s' ∧
           producer s' = PExitLogger None ∧
           data_count (g s') =
             if running (g s) then data_count (g s) + 1
             else data_count (g s)).
Proof.
  intros Hp Hlate Hm. split; [|split].
  - intros sched. revert s Hp Hlate Hm.
    induction sched as [|a sched IH]; intros s Hp Hlate Hm s' Hs H; cbn in H.
    + by simplify_eq.
    + apply Forall_cons in Hs as [Ha Hs].
      destruct (step a s) as [s1|] eqn:E; [|done].
      destruct (step_silent_waiting endTime a s s1 Ha E Hp Hm)
        as (Hp1 & Hm1 & Hf1 & Hs1).
      assert (endTime < clock s1)%Q as Hlate1.
      { assert (last_round endTime (fetched s) s1) as [_ Hl].
        { apply (step_last_round endTime (fetched s) a s s1 E).
          split; [done|]. by rewrite Hp. }
        rewrite Hp1 in Hl. by destruct Hl as (_ & _ & ?). }
      destruct (IH s1 Hp1 Hlate1 Hm1 s' Hs H) as (? & ? & ?).
      repeat split; congruence.
  - intros sched s' H.
    assert (last_round endTime (fetched s) s') as [_ Hl].
    { apply (run_invariant (fun _ => True) (last_round endTime (fetched s)))
        with (sched := sched) (s := s); try done.
      - intros a s1 s2 _. apply step_last_round.
      - apply Forall_True.
      - split; [done|]. by rewrite Hp. }
    destruct (producer s') as [| | | | |e|e f l| | | | |]; try done.
    + left. by destruct Hl as (-> & ? & _).
    + right. split; [done|]. right. exists f. by destruct Hl.
    + by right.
    + by right.
    + by right.
    + by right.
    + by right.
  - intros f Hok Hlock.
    apply Qltb_lt in Hlate.
    destruct s as [[ts rl pt yw lk cnt rn] p m clk out scr snaps fet].
    cbn in *. subst p lk. destruct rn; cbn; unfold pstep; cbn.
    + unfold append_channel; cbn.
      rewrite (frame_ok_roll f Hok); cbn.
      rewrite (frame_ok_pitch f Hok); cbn.
      rewrite (frame_ok_yaw f Hok); cbn.
      rewrite Hlate. by eexists.
    + by eexists.
Qed.
End threads.

(** *** Sample runs of the two threads *)

Section sample_runs.
Import Basiclog.

Lemma sample_frame_ok t r : frame_ok (sample_frame t r).
Proof. repeat split; by eexists. Qed.

Lemma one_frame_well_formed f :
  frame_ok f → Forall well_formed (one_frame f).
Proof.
  intros Hf. unfold one_frame. constructor; [exact Hf|].
  apply Forall_forall. intros a Ha%list_elem_of_In%repeat_spec. by subst.
Qed.

Lemma sample_run_well_formed : Forall well_formed sample_run.
Proof.
  unfold sample_run.
  repeat (apply Forall_app; split);
    try (apply one_frame_well_formed, sample_frame_ok);
    unfold startup, one_tick; repeat (constructor; try exact I).
Qed.


(** The same run: the counts read are 1 then 3, the counter is 3. *)
Lemma sample_count_monotone_witness :
  run sample_run (init 0) = Some (state_after sample_run) ∧
  snap_count <$> snapshots (state_after sample_run) = [1; 3] ∧
  data_count (g (state_after sample_run)) = 3 ∧
  StronglySorted le (snap_count <$> snapshots (state_after sample_run)).
Proof.
  split; [by vm_compute|]. split; [by vm_compute|]. split; [by vm_compute|].
  apply (sample_count_monotone 0 sample_run (state_after sample_run)).
  by vm_compute.
Defined.

(** After an interrupt, a frame that arrives is dropped at line 136. *)
Lemma no_append_after_stop_witness :
  run interrupted_run (init 0) = Some (state_after interrupted_run) ∧
  running (g (state_after interrupted_run)) = false ∧
  producer (state_after interrupted_run) = PNext 60 ∧
  ∃ s', run [Prod (LinkFrame (sample_frame 1000 1)); Prod Tau]
          (state_after interrupted_run) = Some s' ∧
        producer s' = PExitLogger None ∧
        series (g s') = series (g (state_after interrupted_run)).
Proof.
  split; [by vm_compute|]. split; [by vm_compute|]. split; [by vm_compute|].
  destruct (no_append_after_stop 0 interrupted_run
              (state_after interrupted_run)) as (_ & _ & Hkeep);
    [by vm_compute..|].
  pose (s' := default (init 0)
                (run [Prod (LinkFrame (sample_frame 1000 1)); Prod Tau]
                   (state_after interrupted_run))).
  assert (run [Prod (LinkFrame (sample_frame 1000 1)); Prod Tau]
            (state_after interrupted_run) = Some s') as E by (by vm_compute).
  exists s'. split; [exact E|]. split; [by vm_compute|].
  by destruct (Hkeep _ _ E).
Defined.

(** The link cannot be opened: the thread reports it and returns. *)
Lemma link_failure_is_reported_witness :
  Forall raises_Exception connecting_run ∧
  run connecting_run (init 0) = Some (state_after connecting_run) ∧
  producer (state_after connecting_run) = PConnect ∧
  ∃ s', run [Prod (LinkRaise (LinkError "Could not connect")); Prod Tau]
          (state_after connecting_run) = Some s' ∧
        reported (LinkError "Could not connect")
          (state_after connecting_run) s'.
Proof.
  assert (Forall raises_Exception connecting_run) as Hex
    by (repeat constructor).
  split; [exact Hex|]. split; [by vm_compute|]. split; [by vm_compute|].
  destruct (link_failure_is_reported 0 connecting_run
              (state_after connecting_run) Hex) as (_ & Hconnect & _);
    [by vm_compute|].
  apply Hconnect; by vm_compute.
Defined.

(** C5, counterexample: the deadline set 60 s after the start is an hour
    behind, the flag is still set, and the loop is still waiting at line
    135; the thread is alive and has no step of its own to take. *)
Lemma deadline_elapsed_still_waiting :
  run overdue_run (init 0) = Some (state_after overdue_run) ∧
  producer (state_after overdue_run) = PNext 60 ∧
  (60 + 3600 < clock (state_after overdue_run))%Q ∧
  is_alive (producer (state_after overdue_run)) = true ∧
  step (Prod Tau) (state_after overdue_run) = None.
Proof.
  split; [by vm_compute|]. split; [by vm_compute|].
  split; [by vm_compute|]. split; by vm_compute.
Qed.

(** 61 s after the start one frame is enough to leave the loop. *)
Lemma deadline_stops_at_next_frame_witness :
  producer (state_after (startup ++ [Tick 61])) = PNext 60 ∧
  (60 < clock (state_after (startup ++ [Tick 61])))%Q ∧
  ∃ s', run (one_frame (sample_frame 1000 1))
          (state_after (startup ++ [Tick 61])) = Some s' ∧
        producer s' = PExitLogger None ∧ data_count (g s') = 1.
Proof.
  split; [by vm_compute|]. split; [by vm_compute|].
  destruct (deadline_stops_at_next_frame
              (state_after (startup ++ [Tick 61])) 60)
    as (_ & _ & Hexit); [by vm_compute..|].
  apply (Hexit (sample_frame 1000 1)); [apply sample_frame_ok|by vm_compute].
Defined.

(** C4, counterexample: a run that ends on the deadline, the thread
    having returned and the main thread having joined it and finished,
    leaves the flag as it was created. *)
Lemma timeout_leaves_flag_set :
  run timed_out_run (init 0) = Some (state_after timed_out_run) ∧
  producer (state_after timed_out_run) = PDone ∧
  main (state_after timed_out_run) = MDone ∧
  (60 < clock (state_after timed_out_run))%Q ∧
  running (g (state_after timed_out_run)) = true.
Proof.
  split; [by vm_compute|]. split; [by vm_compute|].
  split; [by vm_compute|]. split; by vm_compute.
Qed.

(** An interrupt in the main loop clears the flag. *)
Lemma stop_flag_lifecycle_witness :
  main (state_after startup) = MLoop ∧
  running (g (state_after startup)) = true ∧
  ∃ s', step (Main Interrupt) (state_after startup) = Some s' ∧
        running (g s') = false ∧ main s' = MJoin.
Proof.
  split; [by vm_compute|]. split; [by vm_compute|].
  destruct stop_flag_lifecycle as (_ & _ & _ & Hint & _).
  apply Hint. left. by vm_compute.
Defined.
End sample_runs.

(** ** The flight scope of [test_hover.py] *)

Section hover.
Import Hover.
Implicit Types (fate : nat → option exn) (tr evs : list event).

Lemma plain_call c :
  ordinary (c, None) = true → plain (call c).
Proof.
  intros Hc fate tr. exists [(c, fate (length tr))]. split.
  - unfold call, raised. cbn. by destruct (fate (length tr)).
  - cbn. unfold ordinary in *. cbn in *. by rewrite Hc.
Qed.

Lemma raised_app_ok evs1 evs2 :
  raised evs1 = Ok () → raised (evs1 ++ evs2) = raised evs2.
Proof.
  unfold raised. intros H1. rewrite last_app.
  destruct (last evs2) as [[c [e|]]|]; try done.
Qed.

Lemma plain_seq (b1 b2 : M unit) :
  plain b1 → plain b2 → plain (b1 ;; b2).
Proof.
  intros H1 H2 fate tr.
  destruct (H1 fate tr) as (evs1 & E1 & O1).
  unfold mbind, M_bind. rewrite E1.
  destruct (raised evs1) as [[]|e] eqn:R1.
  - destruct (H2 fate (tr ++ evs1)) as (evs2 & E2 & O2).
    exists (evs1 ++ evs2). rewrite E2, raised_app_ok, app_assoc by done.
    split; [done|]. rewrite forallb_app. by rewrite O1, O2.
  - exists evs1. by rewrite R1.
Qed.

Lemma plain_sequence : plain sequence.
Proof. unfold sequence. repeat apply plain_seq; by apply plain_call. Qed.

Lemma with_calls (cm : context_manager) c1 c2 (b : M unit) fate tr :
  enter cm = call c1 →
  exit cm = (fun _ => call c2;; mret false) →
  with_ cm b fate tr =
    match fate (length tr) with
    | Some e => (Raise e, tr ++ [(c1, Some e)])
    | None =>
        let rt := b fate (tr ++ [(c1, None)]) in
        (scope_result (fate (length rt.2)) rt.1,
         rt.2 ++ [(c2, fate (length rt.2))])
    end.
Proof.
  intros Hen Hex. unfold with_. rewrite Hen, Hex. unfold call at 1.
  destruct (fate (length tr)) as [e|]; [done|].
  destruct (b fate (tr ++ [(c1, None)])) as [[[]|e] tr2]; cbn;
    unfold mbind, M_bind, call, mret, M_ret;
    by destruct (fate (length tr2)).
Qed.

Lemma issued_app (p : event → bool) evs1 evs2 :
  issued p (evs1 ++ evs2) = issued p evs1 + issued p evs2.
Proof. unfold issued. by rewrite List.filter_app, length_app. Qed.

Lemma issued_cons (p : event → bool) ev evs :
  issued p (ev :: evs) = (if p ev then 1 else 0) + issued p evs.
Proof. unfold issued. cbn. by destruct (p ev). Qed.

Lemma ordinary_not_exit evs :
  forallb ordinary evs = true →
  List.filter is_land evs = [] ∧ List.filter is_close evs = [].
Proof.
  induction evs as [|[c o] evs IH]; [done|]. cbn.
  intros [Hc Hevs]%andb_prop. destruct (IH Hevs) as [-> ->].
  by destruct c.
Qed.

Ltac not_entered He :=
  exfalso;
  repeat (apply elem_of_cons in He as [He|He]; [discriminate He|]);
  by apply elem_of_nil in He.

(** The block of the outer [with]: either the flight scope is not
    entered, or the calls end with the land command, and the block
    returns what the scripted sequence raised unless the land raises. *)
Lemma armed_flight_run fate tr :
  ∃ evs r, armed_flight fate tr = (r, tr ++ evs) ∧
    List.filter is_close evs = [] ∧
    ((TakeOff, None) ∉ evs ∨
     ∃ pre land_outcome,
       evs = pre ++ [(Land, land_outcome)] ∧
       List.filter is_land pre = [] ∧
       r = match land_outcome, last pre with
           | Some e, _ => Raise e
           | None, Some (_, Some e) => Raise e
           | None, _ => Ok ()
           end).
Proof.
  unfold armed_flight.
  unfold mbind at 1, M_bind at 1, call at 1.
  destruct (fate (length tr)) as [e2|].
  { eexists _, _. split; [done|]. split; [done|]. left.
    by intros ?%list_elem_of_singleton. }
  unfold mbind at 1, M_bind at 1, call at 1.
  destruct (fate (length (tr ++ _))) as [e3|].
  { eexists _, _. split; [by rewrite <- app_assoc|]. split; [done|]. left.
    intros He. not_entered He. }
  rewrite (with_calls MotionCommander TakeOff Land) by done.
  destruct (fate (length ((tr ++ _) ++ _))) as [e4|].
  { eexists _, _. split; [by rewrite <- !app_assoc|]. split; [done|]. left.
    intros He. not_entered He. }
  cbn zeta.
  destruct (plain_sequence fate
              (((tr ++ [(SendArmingRequest, None)]) ++ [(Sleep 1, None)])
                 ++ [(TakeOff, None)])) as (evs & -> & Hord).
  cbn [fst snd].
  destruct (ordinary_not_exit evs Hord) as [Hland Hclose].
  eexists _, _. split; [by rewrite <- !app_assoc|]. split.
  { by rewrite !List.filter_app, Hclose. }
  right.
  eexists ([(SendArmingRequest, None); (Sleep 1, None); (TakeOff, None)]
             ++ evs), _.
  split; [by rewrite <- !app_assoc|]. split.
  { cbn. exact Hland. }
  destruct (fate (length _)) as [eL|]; [done|]. cbn [scope_result].
  unfold raised. rewrite last_app.
  unfold event in *.
  destruct (last evs) as [[c [e|]]|]; reflexivity.
Qed.

(** C1: on every run of the script in which the flight scope is entered,
    whatever each call does (return, raise an error, be interrupted from
    outside while it blocks), the calls issued end with one land command
    followed by one disconnect, and no other land or disconnect is
    issued; when the scripted sequence raised an exception and the land
    and the disconnect return, that exception is what the caller
    receives, after both; when the sequence completed, the caller
    receives nothing; an exception of the land or of the disconnect
    themselves is received in its place. *)
Theorem exit_lands_then_disconnects fate r tr :
  main fate [] = (r, tr) →
  entered tr →
  ∃ pre land_outcome close_outcome,
    tr = pre ++ [(Land, land_outcome); (CloseLink, close_outcome)] ∧
    issued is_land tr = 1 ∧ issued is_close tr = 1 ∧
    r = match close_outcome, land_outcome, last pre with
        | Some e, _, _ => Raise e
        | None, Some e, _ => Raise e
        | None, None, Some (_, Some e) => Raise e
        | None, None, _ => Ok ()
        end.
Proof.
  intros H He. unfold entered in He.
  unfold main in H. unfold mbind at 1, M_bind at 1, call at 1 in H.
  cbn [length app] in H.
  destruct (fate 0) as [e0|]; [simplify_eq; not_entered He|].
  rewrite (with_calls SyncCrazyflie OpenLink CloseLink) in H by done.
  cbn [length app] in H.
  destruct (fate 1) as [e1|]; [simplify_eq; not_entered He|].
  cbn zeta in H.
  match type of H with
  | context [armed_flight fate ?t] =>
      destruct (armed_flight_run fate t) as (evs & rb & Eb & Hclose & Hcases)
  end.
  rewrite Eb in H. cbn [fst snd] in H. injection H as <- <-.
  destruct Hcases as [Hno|(pre & oL & -> & Hland & ->)].
  { exfalso. cbn in He.
    repeat (apply elem_of_cons in He as [He|He]; [discriminate He|]).
    apply elem_of_app in He as [He|He]; [done|].
    not_entered He. }
  rewrite List.filter_app in Hclose. cbn in Hclose.
  apply app_eq_nil in Hclose as [Hclose _].
  eexists ([(InitDrivers, None); (OpenLink, None)] ++ pre), oL, _.
  split; [by rewrite <- !app_assoc|]. split; [|split].
  - rewrite !issued_cons, !issued_app, !issued_cons.
    unfold issued. rewrite Hland. reflexivity.
  - rewrite !issued_cons, !issued_app, !issued_cons.
    unfold issued, event in *. rewrite Hclose. reflexivity.
  - match goal with
    | |- context [scope_result (fate ?n)] => destruct (fate n) as [eC|]
    end; [done|]. cbn [scope_result].
    destruct oL as [eL|]; [done|]. rewrite last_app.
    unfold event in *.
    destruct (last pre) as [[c [e|]]|]; reflexivity.
Qed.
End hover.

(** The ascent of line 29 times out: the vehicle is landed, the link is
    closed, and the caller receives the timeout. *)
Lemma exit_lands_then_disconnects_witness :
  Hover.entered (Hover.main Hover.ascent_times_out []).2 ∧
  Hover.main Hover.ascent_times_out [] =
    (Raise (LinkError "MotionTimeout"),
     [ (Hover.InitDrivers, None); (Hover.OpenLink, None);
       (Hover.SendArmingRequest, None); (Hover.Sleep 1, None);
       (Hover.TakeOff, None); (Hover.Sleep 1, None);
       (Hover.Up (7 # 10), Some (LinkError "MotionTimeout"));
       (Hover.Land, None); (Hover.CloseLink, None) ]) ∧
  ∃ pre land_outcome close_outcome,
    (Hover.main Hover.ascent_times_out []).2
      = pre ++ [(Hover.Land, land_outcome);
                (Hover.CloseLink, close_outcome)] ∧
    Hover.issued Hover.is_land (Hover.main Hover.ascent_times_out []).2 = 1 ∧
    Hover.issued Hover.is_close (Hover.main Hover.ascent_times_out []).2 = 1 ∧
    (Hover.main Hover.ascent_times_out []).1
      = match close_outcome, land_outcome, last pre with
        | Some e, _, _ => Raise e
        | None, Some e, _ => Raise e
        | None, None, Some (_, Some e) => Raise e
        | None, None, _ => Ok ()
        end.
Proof.
  assert (Hover.entered (Hover.main Hover.ascent_times_out []).2) as He.
  { unfold Hover.entered. vm_compute. set_solver. }
  split; [exact He|]. split; [by vm_compute|].
  exact (exit_lands_then_disconnects Hover.ascent_times_out _ _
           (surjective_pairing (Hover.main Hover.ascent_times_out [])) He).
Defined.

(** * Further properties *)

(** ** The limits of the axes set by [animate] *)

Section renderer_limits.
Import Basiclog.
Implicit Types (l : list Q) (x y v : Q).

Lemma Qltb_ge x y : Qltb x y = false ↔ (y <= x)%Q.
Proof.
  unfold Qltb. rewrite negb_false_iff. apply Qle_bool_iff.
Qed.

Lemma fold_min_le l x :
  (foldl (fun m y => if Qltb y m then y else m) x l <= x)%Q ∧
  ∀ v, v ∈ l → (foldl (fun m y => if Qltb y m then y else m) x l <= v)%Q.
Proof.
  revert x. induction l as [|y l IH]; intros x; cbn.
  - split; [lra|]. by intros v ?%elem_of_nil.
  - destruct (IH (if Qltb y x then y else x)) as [Hx Hl].
    destruct (Qltb y x) eqn:E.
    + apply Qltb_lt in E. split; [lra|].
      intros v [->|Hv]%elem_of_cons; [lra|auto].
    + apply Qltb_ge in E. split; [lra|].
      intros v [->|Hv]%elem_of_cons; [lra|auto].
Qed.

Lemma fold_max_ge l x :
  (x <= foldl (fun m y => if Qltb m y then y else m) x l)%Q ∧
  ∀ v, v ∈ l → (v <= foldl (fun m y => if Qltb m y then y else m) x l)%Q.
Proof.
  revert x. induction l as [|y l IH]; intros x; cbn.
  - split; [lra|]. by intros v ?%elem_of_nil.
  - destruct (IH (if Qltb x y then y else x)) as [Hx Hl].
    destruct (Qltb x y) eqn:E.
    + apply Qltb_lt in E. split; [lra|].
      intros v [->|Hv]%elem_of_cons; [lra|auto].
    + apply Qltb_ge in E. split; [lra|].
      intros v [->|Hv]%elem_of_cons; [lra|auto].
Qed.

(** [min] and [max] of a non-empty sequence bound every item of it. *)
Lemma py_min_max_bounds l v :
  v ∈ l →
  ∃ lo hi, py_min l = Ok lo ∧ py_max l = Ok hi ∧ (lo <= v <= hi)%Q.
Proof.
  destruct l as [|x l]; [by intros ?%elem_of_nil|]. intros Hv.
  eexists _, _. split; [done|]. split; [done|].
  destruct (fold_min_le l x) as [Hx Hl], (fold_max_ge l x) as [Hx' Hl'].
  apply elem_of_cons in Hv as [->|Hv]; split; auto.
Qed.

(** Lines 83-89: the y-limits strictly enclose every sample, and are the
    same on the three axes. *)
Lemma ylimits_enclose l cmds :
  ylimits l = Ok cmds →
  l ≠ [] →
  ∃ lo hi,
    cmds = [SetYLim ax1 lo hi; SetYLim ax2 lo hi; SetYLim ax3 lo hi] ∧
    (lo < hi)%Q ∧ ∀ v, v ∈ l → (lo < v < hi)%Q.
Proof.
  intros H Hne. destruct l as [|x l]; [done|].
  unfold ylimits in H. cbn [py_min py_max mbind result_bind] in H.
  set (m := foldl (fun m y => if Qltb y m then y else m) x l) in *.
  set (M := foldl (fun m y => if Qltb m y then y else m) x l) in *.
  destruct (fold_min_le l x) as [Hx Hl], (fold_max_ge l x) as [Hx' Hl'].
  fold m in Hx, Hl. fold M in Hx', Hl'.
  set (margin := if negb (Qeq_bool M m) then ((M - m) * (2 # 10))%Q else 2%Q)
    in *.
  assert (0 < margin)%Q as Hmargin.
  { unfold margin. destruct (Qeq_bool M m) eqn:E; cbn; [lra|].
    apply Qeq_bool_neq in E.
    assert (m < M)%Q; [|lra].
    apply Qle_lteq in Hx as [Hx| Hx]; [lra|].
    apply Qle_lteq in Hx' as [Hx'|Hx']; [lra|].
    exfalso. apply E. lra. }
  injection H as <-. eexists _, _. split; [done|]. split; [lra|].
  intros v [->|Hv]%elem_of_cons.
  - lra.
  - specialize (Hl v Hv). specialize (Hl' v Hv). lra.
Qed.

Lemma xlimits_shape l cmds :
  xlimits l = Ok cmds →
  cmds = [] ∧ l = [] ∨
  ∃ t_last, last l = Some t_last ∧
    cmds = [SetXLim ax1 0 (t_last + (1 # 2)); SetXLim ax2 0 (t_last + (1 # 2));
            SetXLim ax3 0 (t_last + (1 # 2))].
Proof.
  unfold xlimits, getitem_last. destruct l as [|y l]; cbn [length Nat.ltb Nat.leb].
  - intros [= <-]. by left.
  - destruct (last (y :: l)) as [t|] eqn:E; cbn; [|done].
    intros [= <-]. right. by exists t.
Qed.

(** The parts of the calls of a tick that plots. *)
Lemma animate_parts (x : globals) :
  2 < Deque.len (timestamps x) →
  ∃ start_time ylim xlim,
    Deque.first (timestamps x) = Ok start_time ∧
    ylimits (Deque.to_list (roll_data x) ++ Deque.to_list (pitch_data x)
               ++ Deque.to_list (yaw_data x)) = Ok ylim ∧
    xlimits (elapsed start_time (Deque.to_list (timestamps x))) = Ok xlim ∧
    animate x =
      Ok (curves (elapsed start_time (Deque.to_list (timestamps x)))
            (Deque.to_list (roll_data x)) (Deque.to_list (pitch_data x))
            (Deque.to_list (yaw_data x)) (data_count x) ++ ylim ++ xlim).
Proof.
  intros H.
  destruct (first_ok (timestamps x)) as [t0 Ht0]; [lia|].
  destruct (ylimits_ok (Deque.to_list (roll_data x)
              ++ Deque.to_list (pitch_data x)
              ++ Deque.to_list (yaw_data x))) as (ylim & Hy & _).
  destruct (xlimits_ok (elapsed t0 (Deque.to_list (timestamps x))))
    as (xlim & Hx & _).
  exists t0, ylim, xlim. repeat split; try done.
  unfold animate. apply Nat.ltb_lt in H. rewrite H, Ht0.
  cbn [mbind result_bind]. rewrite Hy. cbn [mbind result_bind].
  by rewrite Hx.
Qed.

(** What a tick draws is either the placeholder or curves with limits. *)
Lemma animate_cases (x : globals) cmds :
  animate x = Ok cmds →
  cmds = placeholder (data_count x) ∧ Deque.len (timestamps x) ≤ 2 ∨
  ∃ start_time ylim xlim,
    2 < Deque.len (timestamps x) ∧
    Deque.first (timestamps x) = Ok start_time ∧
    ylimits (Deque.to_list (roll_data x) ++ Deque.to_list (pitch_data x)
               ++ Deque.to_list (yaw_data x)) = Ok ylim ∧
    xlimits (elapsed start_time (Deque.to_list (timestamps x))) = Ok xlim ∧
    cmds =
      curves (elapsed start_time (Deque.to_list (timestamps x)))
        (Deque.to_list (roll_data x)) (Deque.to_list (pitch_data x))
        (Deque.to_list (yaw_data x)) (data_count x) ++ ylim ++ xlim.
Proof.
  intros H. destruct (le_lt_dec (Deque.len (timestamps x)) 2) as [Hle|Hlt].
  - left. rewrite animate_waiting in H by done. by injection H as <-.
  - right. destruct (animate_parts x Hlt) as (t0 & yl & xl & ? & ? & ? & E).
    rewrite E in H. injection H as <-. by exists t0, yl, xl.
Qed.

Lemma ylimits_shape (l : list Q) cmds :
  ylimits l = Ok cmds →
  cmds = [] ∨ ∃ lo hi,
    cmds = [SetYLim ax1 lo hi; SetYLim ax2 lo hi; SetYLim ax3 lo hi].
Proof.
  intros H. destruct l as [|y l].
  - left. by injection H as <-.
  - right. destruct (ylimits_enclose _ _ H) as (lo & hi & -> & _); [done|].
    by exists lo, hi.
Qed.

Lemma first_head (d : deque Z) t0 :
  Deque.first d = Ok t0 → ∃ rest, Deque.to_list d = t0 :: rest.
Proof.
  unfold Deque.first, Deque.to_list. destruct (items d) as [|z l]; [done|].
  intros [= <-]. by exists l.
Qed.

Lemma sorted_last (l : list Z) zl z :
  StronglySorted Z.le l → last l = Some zl → z ∈ l → (z <= zl)%Z.
Proof.
  intros Hs Hl Hz. apply last_Some in Hl as [l' ->].
  apply StronglySorted_app in Hs as (Hc & _ & _).
  apply elem_of_app in Hz as [Hz|Hz].
  - apply Hc; [done|]. by constructor.
  - apply list_elem_of_singleton in Hz as ->. lia.
Qed.

Lemma elapsed_le t0 (a b : Z) :
  (a <= b)%Z → (inject_Z (a - t0) / 1000 <= inject_Z (b - t0) / 1000)%Q.
Proof.
  intros H. assert (inject_Z (a - t0) <= inject_Z (b - t0))%Q.
  { rewrite <- Zle_Qle. lia. }
  unfold Qdiv. by apply Qmult_le_compat_r.
Qed.

(** X2: when the timestamps held are in non-decreasing order, the lower
    x-limit a tick sets is 0 and every abscissa of every curve it draws
    is at least 0 and below the upper x-limit. *)
Theorem plotted_times_within_xlimits (x : globals) cmds ax lo hi a xs ys fmt t :
  animate x = Ok cmds →
  StronglySorted Z.le (Deque.to_list (timestamps x)) →
  SetXLim ax lo hi ∈ cmds →
  Plot a xs ys fmt ∈ cmds →
  t ∈ xs →
  lo = 0%Q ∧ (0 <= t)%Q ∧ (t < hi)%Q.
Proof.
  intros H Hs Hlim Hplot Ht.
  destruct (animate_cases x cmds H)
    as [[-> _]|(t0 & yl & xl & _ & H0 & Hy & Hx & ->)].
  { exfalso. unfold placeholder in Hlim.
    repeat (apply elem_of_cons in Hlim as [Hlim|Hlim]; [discriminate Hlim|]).
    by apply elem_of_nil in Hlim. }
  destruct (first_head _ _ H0) as [rest Hts].
  assert (xs = elapsed t0 (Deque.to_list (timestamps x))) as ->.
  { apply elem_of_app in Hplot as [Hp|Hp].
    - unfold curves in Hp.
      repeat (apply elem_of_cons in Hp as [Hp|Hp];
              [first [discriminate Hp | by injection Hp as _ -> _ _]|]).
      by apply elem_of_nil in Hp.
    - exfalso. apply elem_of_app in Hp as [Hp|Hp].
      + destruct (ylimits_shape _ _ Hy) as [->|(? & ? & ->)].
        * by apply elem_of_nil in Hp.
        * repeat (apply elem_of_cons in Hp as [Hp|Hp]; [discriminate Hp|]).
          by apply elem_of_nil in Hp.
      + destruct (xlimits_shape _ _ Hx) as [[-> _]|(? & _ & ->)].
        * by apply elem_of_nil in Hp.
        * repeat (apply elem_of_cons in Hp as [Hp|Hp]; [discriminate Hp|]).
          by apply elem_of_nil in Hp. }
  assert (∃ t_last, last (elapsed t0 (Deque.to_list (timestamps x)))
                      = Some t_last ∧ lo = 0%Q ∧ hi = (t_last + (1 # 2))%Q)
    as (t_last & Hlast & -> & ->).
  { apply elem_of_app in Hlim as [Hl|Hl].
    - exfalso. unfold curves in Hl.
      repeat (apply elem_of_cons in Hl as [Hl|Hl]; [discriminate Hl|]).
      by apply elem_of_nil in Hl.
    - apply elem_of_app in Hl as [Hl|Hl].
      + exfalso. destruct (ylimits_shape _ _ Hy) as [->|(? & ? & ->)].
        * by apply elem_of_nil in Hl.
        * repeat (apply elem_of_cons in Hl as [Hl|Hl]; [discriminate Hl|]).
          by apply elem_of_nil in Hl.
      + destruct (xlimits_shape _ _ Hx) as [[-> _]|(tl & Hlast & ->)].
        * by apply elem_of_nil in Hl.
        * exists tl. split; [done|].
          repeat (apply elem_of_cons in Hl as [Hl|Hl];
                  [by injection Hl as _ -> ->|]).
          by apply elem_of_nil in Hl. }
  split; [done|].
  unfold elapsed in Ht, Hlast.
  change (map ?f ?l) with (f <$> l) in Ht, Hlast.
  apply list_elem_of_fmap in Ht as (z & -> & Hz).
  rewrite fmap_last in Hlast.
  destruct (last (Deque.to_list (timestamps x))) as [zl|] eqn:El; [|done].
  injection Hlast as <-.
  pose proof (sorted_last _ _ _ Hs El Hz) as Hle.
  assert (t0 <= z)%Z as Hge.
  { rewrite Hts in Hs, Hz. apply StronglySorted_inv in Hs as [_ Hall].
    apply elem_of_cons in Hz as [->|Hz]; [lia|].
    by eapply Forall_forall in Hall. }
  pose proof (elapsed_le t0 _ _ Hle) as Hup.
  assert (0 <= inject_Z (z - t0) / 1000)%Q as Hnn.
  { unfold Qdiv. apply Qmult_le_0_compat; [|done].
    change 0%Q with (inject_Z 0). rewrite <- Zle_Qle. lia. }
  set (tz := (inject_Z (z - t0) / 1000)%Q) in *.
  set (tl := (inject_Z (zl - t0) / 1000)%Q) in *.
  split; lra.
Qed.
End renderer_limits.


(** The same tick: timestamps 1000, 1010, 1020 ms give the abscissas
    0, 0.01 and 0.02 s, below the upper limit 0.52. *)
Lemma plotted_times_within_xlimits_witness :
  ∃ cmds xs ys lo hi,
    Basiclog.animate (Basiclog.g (Basiclog.state_after Basiclog.sample_run))
      = Ok cmds ∧
    StronglySorted Z.le
      (Deque.to_list
         (Basiclog.timestamps
            (Basiclog.g (Basiclog.state_after Basiclog.sample_run)))) ∧
    cmds !! 17 = Some (Basiclog.SetXLim Basiclog.ax1 lo hi) ∧
    cmds !! 3 = Some (Basiclog.Plot Basiclog.ax1 xs ys "r-") ∧
    xs !! 2 = Some (20 # 1000)%Q ∧
    (lo = 0%Q ∧ (0 <= 20 # 1000)%Q ∧ (20 # 1000 < hi)%Q).
Proof.
  eexists _, _, _, _, _.
  assert (Basiclog.animate
            (Basiclog.g (Basiclog.state_after Basiclog.sample_run)) = Ok _)
    as Ha by (vm_compute; reflexivity).
  assert (StronglySorted Z.le
            (Deque.to_list
               (Basiclog.timestamps
                  (Basiclog.g (Basiclog.state_after Basiclog.sample_run)))))
    as Hs.
  { assert (Deque.to_list
              (Basiclog.timestamps
                 (Basiclog.g (Basiclog.state_after Basiclog.sample_run)))
            = [1000; 1010; 1020]%Z) as -> by by vm_compute.
    repeat constructor; lia. }
  split; [exact Ha|]. split; [exact Hs|].
  split; [reflexivity|]. split; [reflexivity|]. split; [reflexivity|].
  eapply (plotted_times_within_xlimits _ _ _ _ _ _ _ _ _ _ Ha Hs).
  - apply (list_elem_of_lookup_2 _ 17). reflexivity.
  - apply (list_elem_of_lookup_2 _ 3). reflexivity.
  - apply (list_elem_of_lookup_2 _ 2). reflexivity.
Defined.

(** ** The lock, the capacity and the counter, whatever the link delivers *)

Section more_threads.
Import Basiclog.
Implicit Types (s : sys) (a : action) (sched : list action).

Lemma step_lock_discipline a s s' :
  step a s = Some s' → not_started s → lock_discipline s →
  lock_discipline s'.
Proof.
  intros H Hn [Hl He].
  destruct s as [[ts rl pt yw lk cnt rn] p m clk out scr snaps fet].
  unfold lock_discipline, not_started in *. cbn in *.
  step_inv H; cbn in *; try done.
  all: try (by rewrite Hn in *).
  all: try (split; [done|]; intros _; by destruct m).
  all: try (by destruct m).
  all: try specialize (He eq_refl).
  all: repeat case_match; simplify_eq/=; try done.
  all: try (split; [done|]; intros; congruence).
  all: try (by specialize (He eq_refl)).
Qed.

Lemma run_lock_discipline t0 sched s :
  run sched (init t0) = Some s → lock_discipline s.
Proof.
  intros H.
  assert (not_started s ∧ lock_discipline s) as [_ Hl]; [|exact Hl].
  apply (run_invariant (fun _ => True)
           (fun s => not_started s ∧ lock_discipline s))
    with (sched := sched) (s := init t0); try done.
  - intros a s1 s2 _ Hs [Hn Hl]. split.
    + by eapply step_not_started.
    + by eapply step_lock_discipline.
  - apply Forall_True.
Qed.

(** X3: on every state the program reaches, whatever the link delivers and
    whenever an interrupt arrives, [data_lock] is held by the collecting
    thread exactly while it is inside its [with data_lock] block, by the
    main thread exactly while it runs [animate], and the two are never
    inside at the same time. *)
Theorem lock_held_inside_blocks_only t0 sched s :
  run sched (init t0) = Some s →
  (data_lock (g s) = Some Producer ↔ in_critical (producer s) = true) ∧
  (data_lock (g s) = Some MainThread ↔ animating (main s) = true) ∧
  ¬ (in_critical (producer s) = true ∧ animating (main s) = true).
Proof.
  intros H. destruct (run_lock_discipline _ _ _ H) as [Hl He].
  rewrite Hl.
  destruct (in_critical (producer s)), (animating (main s));
    try specialize (He eq_refl); split_and?; try split; try done;
    by intros [? ?].
Qed.

Lemma append_within_capacity {A} (d : deque A) x :
  within_capacity d → within_capacity (Deque.append d x).
Proof.
  unfold within_capacity. intros [Hm Hl]. split; [done|].
  unfold Deque.len, Deque.append in *. cbn [items maxlen]. rewrite Hm.
  destruct (1000 <? length (items d ++ [x]))%nat eqn:E.
  - destruct (items d) as [|y l]; cbn [app tail length] in *;
      rewrite ?length_app; cbn [length]; lia.
  - by apply Nat.ltb_ge in E.
Qed.

Lemma step_series_bounded a s s' :
  step a s = Some s' → series_bounded (g s) → series_bounded (g s').
Proof.
  intros H (Ht & Hr & Hp & Hy).
  destruct s as [[ts rl pt yw lk cnt rn] p m clk out scr snaps fet].
  unfold series_bounded in *. cbn in *. step_inv H; cbn; try done.
  all: repeat split; try done; try (by apply append_within_capacity);
    try apply Ht; try apply Hr; try apply Hp; try apply Hy.
Qed.

(** X5: on every state the program reaches, whatever the link delivers,
    each of the four series still has capacity 1000 and holds at most
    1000 values. *)
Theorem series_never_exceed_capacity t0 sched s :
  run sched (init t0) = Some s → series_bounded (g s).
Proof.
  intros H.
  apply (run_invariant (fun _ => True) (fun s => series_bounded (g s)))
    with (sched := sched) (s := init t0); try done.
  - intros a s1 s2 _. apply step_series_bounded.
  - apply Forall_True.
  - unfold series_bounded, within_capacity. cbn. repeat split; lia.
Qed.

Ltac release_lock :=
  do 6 (cbn; unfold append_channel;
        repeat match goal with
               | E : f_data _ !! _ = _ |- _ => rewrite E
               end);
  cbn; split; [reflexivity|]; by split.

(** Nothing blocks inside the producer's [with data_lock] block: from any
    point of it, at most six steps of the thread itself release the
    lock. *)
Lemma producer_releases_lock s :
  in_critical (producer s) = true →
  ∃ n s', n ≤ 6 ∧ run (replicate n (Prod Tau)) s = Some s' ∧
          in_critical (producer s') = false ∧ data_lock (g s') = None.
Proof.
  destruct s as [[ts rl pt yw lk cnt rn] p m clk out scr snaps fet].
  destruct p as [| | | | | |e f at_| | | | |]; try done.
  destruct (f_data f !! "stabilizer.roll") as [vr|] eqn:Er,
           (f_data f !! "stabilizer.pitch") as [vp|] eqn:Ep,
           (f_data f !! "stabilizer.yaw") as [vy|] eqn:Ey.
  all: destruct at_; try done; intros _.
  all: first
    [ exists 1; eexists; split; [lia|]; release_lock
    | exists 2; eexists; split; [lia|]; release_lock
    | exists 3; eexists; split; [lia|]; release_lock
    | exists 4; eexists; split; [lia|]; release_lock
    | exists 5; eexists; split; [lia|]; release_lock
    | exists 6; eexists; split; [lia|]; release_lock ].
Qed.

(** X4: a held lock is always released: from every state the program
    reaches in which [data_lock] is held, at most six further steps, none
    of which waits for the link, lead to a state in which it is free. *)
Theorem held_lock_is_released t0 sched s :
  run sched (init t0) = Some s → is_Some (data_lock (g s)) →
  ∃ sched' s', length sched' ≤ 6 ∧ Forall link_silent sched' ∧
    run sched' s = Some s' ∧ data_lock (g s') = None.
Proof.
  intros H [holder Hh].
  destruct (run_lock_discipline _ _ _ H) as [Hl _].
  destruct (in_critical (producer s)) eqn:Ec.
  - destruct (producer_releases_lock s Ec) as (n & s' & Hn & Hr & _ & Hfree).
    exists (replicate n (Prod Tau)), s'. rewrite length_replicate.
    split; [done|]. split; [|done].
    apply Forall_forall. by intros a [-> _]%elem_of_replicate.
  - destruct (animating (main s)) eqn:Ea; [|congruence].
    destruct (main s) as [| |site| | | | | |] eqn:Em; try done.
    exists [Main Go]. cbn [run step length]. unfold mstep. rewrite Em.
    destruct (animate (g s)), site; eexists;
      (split; [lia|]; split;
       [by apply Forall_forall; intros ? ->%list_elem_of_singleton|];
       by split).
Qed.

Lemma printed_app out1 out2 :
  printed (out1 ++ out2) = printed out1 + printed out2.
Proof. unfold printed. by rewrite List.filter_app, length_app. Qed.

Ltac ledger_rest :=
  unfold printed in *;
  split_and?; try done; try lia; eauto;
  try (apply Forall_app; split; [done|]; by apply Forall_singleton).

Lemma step_ledger a s s' :
  step a s = Some s' → not_started s → ledger s → ledger s'.
Proof.
  intros H Hn HL.
  destruct s as [[ts rl pt yw lk cnt rn] p m clk out scr snaps fet].
  unfold ledger, not_started in *. cbn in *.
  step_inv H; cbn in *.
  all: rewrite ?printed_app; cbn.
  all: try done.
  all: try (specialize (Hn eq_refl); simplify_eq/=).
  all: repeat match goal with
       | H : ∃ _, _ |- _ => destruct H
       | H : _ ∧ _ |- _ => destruct H
       end; simplify_eq/=.
  all: rewrite ?Nat.add_0_r in *.
  all: try (rewrite length_app; cbn).
  all: try first
    [ by (exists [], [])
    | by (eexists; split; [reflexivity|]; ledger_rest)
    | by (eexists _, []; split; [symmetry; apply app_nil_r|];
          rewrite ?length_app; cbn; ledger_rest)
    | by (eexists _, _; split; [reflexivity|]; ledger_rest)
    | by ledger_rest
    | by (destruct p as [| | | | | |? ? []| | | | |]; cbn in *;
          rewrite ?Nat.add_0_r; ledger_rest) ].
Qed.

Lemma run_ledger t0 sched s :
  run sched (init t0) = Some s → ledger s.
Proof.
  intros H.
  assert (not_started s ∧ ledger s) as [_ HL]; [|exact HL].
  apply (run_invariant (fun _ => True) (fun s => not_started s ∧ ledger s))
    with (sched := sched) (s := init t0); try done.
  - intros a s1 s2 _ Hs [Hn Hl]. split.
    + by eapply step_not_started.
    + by eapply step_ledger.
  - apply Forall_True.
Qed.

(** X6: on every state the program reaches, whatever the link delivers,
    every frame the loop has taken has been counted, except possibly the
    last one taken, and every frame counted has had its line printed,
    except possibly the last one counted. *)
Theorem frames_counted_but_last t0 sched s :
  run sched (init t0) = Some s →
  data_count (g s) ≤ length (fetched s) ≤ data_count (g s) + 1 ∧
  printed (stdout s) ≤ data_count (g s) ≤ printed (stdout s) + 1.
Proof.
  intros H. pose proof (run_ledger _ _ _ H) as HL. unfold ledger in HL.
  destruct (producer s) as [| | | | | |? ? at_| | | | |];
    repeat match goal with
           | H : ∃ _, _ |- _ => destruct H
           | H : _ ∧ _ |- _ => destruct H
           end;
    repeat match goal with
           | H : fetched s = _ |- _ => rewrite H
           end;
    rewrite ?length_app; cbn [length];
    try (destruct at_; cbn [counted shown] in * ); lia.
Qed.

Lemma unsound_frame_last (pre post pre' rest : list frame) f :
  pre ++ f :: post = pre' ++ rest → Forall frame_ok pre' → ¬ frame_ok f →
  length rest ≤ 1 → pre = pre' ∧ rest = [f] ∧ post = [].
Proof.
  intros E Hok Hf Hr.
  assert ((pre' ++ rest) !! length pre = Some f) as Hl.
  { rewrite <- E. by apply list_lookup_middle. }
  destruct (decide (length pre < length pre')) as [Hlt|Hge].
  { rewrite lookup_app_l in Hl by done.
    exfalso. apply Hf. by eapply Forall_lookup_1 in Hok. }
  rewrite lookup_app_r in Hl by lia.
  destruct rest as [|r [|r' rest]]; cbn in Hr; [done| |lia].
  destruct (length pre - length pre') eqn:En; cbn in Hl; [|done].
  injection Hl as ->.
  assert (length pre = length pre') as Hlen by lia.
  apply app_inj_1 in E as [-> E]; [|done]. by injection E as <-.
Qed.

(** X7: a frame that lacks one of the three variables is the last one
    the loop takes, and it is neither counted nor printed: the counter
    and the number of frame lines printed stay at the number of frames
    taken before it. *)
Theorem malformed_frame_ends_collection t0 sched s pre f post :
  run sched (init t0) = Some s →
  fetched s = pre ++ f :: post → ¬ frame_ok f →
  post = [] ∧ data_count (g s) = length pre ∧
  printed (stdout s) = length pre.
Proof.
  intros H E Hf. pose proof (run_ledger _ _ _ H) as HL. unfold ledger in HL.
  destruct (producer s) as [| | | | |?|? f' at_|?|?|?| |?];
    repeat match goal with
           | H : ∃ _, _ |- _ => destruct H
           | H : _ ∧ _ |- _ => destruct H
           end.
  1-5: exfalso;
    match goal with
    | H : fetched _ = [] |- _ => rewrite E in H; by destruct pre
    end.
  { exfalso. rewrite E in *. apply Hf.
    match goal with
    | H : Forall frame_ok _ |- _ =>
        by apply Forall_app in H as [_ [? _]%Forall_cons]
    end. }
  all: match goal with
       | H : fetched _ = ?p ++ ?r, Hok : Forall frame_ok ?p |- _ =>
           rewrite E in H;
           destruct (unsound_frame_last _ _ _ _ _ H Hok Hf) as (-> & Hr & ->);
           [done|]
       end.
  all: try done.
  injection Hr as ->.
  destruct at_; cbn [counted shown read_so_far] in *; try done;
    split_and?; try done; lia.
Qed.

Lemma step_total_final a s s' :
  step a s = Some s' → total_final s → total_final s'.
Proof.
  intros H HT n Hin.
  destruct s as [[ts rl pt yw lk cnt rn] p m clk out scr snaps fet].
  unfold total_final in *. cbn in *. step_inv H; cbn in *.
  all: rewrite ?elem_of_app, ?elem_of_cons, ?elem_of_nil in Hin.
  all: destruct_or?; simplify_eq; try done.
  all: try (destruct (HT _ Hin) as (? & ? & ?); simplify_eq/=; done).
Qed.

(** X8: a total printed by line 195 is printed after the collecting
    thread has ended; it is the final value of the counter and the number
    of frame lines printed. *)
Theorem total_is_number_of_frame_lines t0 sched s n :
  run sched (init t0) = Some s → MsgTotal n ∈ stdout s →
  n = data_count (g s) ∧ n = printed (stdout s) ∧
  is_alive (producer s) = false.
Proof.
  intros H Hin.
  assert (total_final s) as HT.
  { apply (run_invariant (fun _ => True) total_final)
      with (sched := sched) (s := init t0); try done.
    - intros a s1 s2 _. apply step_total_final.
    - apply Forall_True.
    - by intros k ?%elem_of_nil. }
  destruct (HT n Hin) as (-> & Hdead & _).
  split; [done|]. split; [|done].
  pose proof (run_ledger _ _ _ H) as HL. unfold ledger in HL.
  destruct (producer s); try done;
    repeat match goal with
           | H : ∃ _, _ |- _ => destruct H
           | H : _ ∧ _ |- _ => destruct H
           end; congruence.
Qed.
Lemma animate_aligned (x : globals) cmds :
  animate x = Ok cmds → balanced (observe x) → aligned cmds.
Proof.
  intros H (Hr & Hp & Hy) ax xs ys fmt Hin. cbn in *.
  destruct (animate_cases x cmds H)
    as [[-> _]|(t0 & yl & xl & _ & _ & Hyl & Hxl & ->)].
  { exfalso. unfold placeholder in Hin.
    repeat (apply elem_of_cons in Hin as [Hin|Hin]; [discriminate Hin|]).
    by apply elem_of_nil in Hin. }
  apply elem_of_app in Hin as [Hin|Hin].
  - unfold curves, elapsed in Hin.
    repeat (apply elem_of_cons in Hin as [Hin|Hin];
            [first [discriminate Hin
                   | injection Hin as _ -> -> _; rewrite length_map; congruence]|]).
    by apply elem_of_nil in Hin.
  - exfalso. apply elem_of_app in Hin as [Hin|Hin].
    + destruct (ylimits_shape _ _ Hyl) as [->|(? & ? & ->)].
      * by apply elem_of_nil in Hin.
      * repeat (apply elem_of_cons in Hin as [Hin|Hin]; [discriminate Hin|]).
        by apply elem_of_nil in Hin.
    + destruct (xlimits_shape _ _ Hxl) as [[-> _]|(? & _ & ->)].
      * by apply elem_of_nil in Hin.
      * repeat (apply elem_of_cons in Hin as [Hin|Hin]; [discriminate Hin|]).
        by apply elem_of_nil in Hin.
Qed.

Lemma step_screen a s s' :
  step a s = Some s' →
  screen s' = screen s ∨
  ∃ cmds, animate (g s) = Ok cmds ∧ screen s' = screen s ++ [cmds] ∧
          snapshots s' = snapshots s ++ [observe (g s)].
Proof.
  intros H.
  destruct s as [[ts rl pt yw lk cnt rn] p m clk out scr snaps fet].
  cbn in *. step_inv H; eauto.
Qed.

(** X9: when every frame delivered carries its three variables, every
    curve ever drawn has as many abscissas as ordinates. *)
Theorem curves_have_matching_lengths t0 sched s cmds ax xs ys fmt :
  Forall well_formed sched → run sched (init t0) = Some s →
  cmds ∈ screen s → Plot ax xs ys fmt ∈ cmds →
  length xs = length ys.
Proof.
  intros Hwf H Hc Hp.
  assert ((∃ done, consistent done s) ∧ Forall aligned (screen s))
    as [_ Hall].
  { apply (run_invariant well_formed
             (fun s => (∃ done, consistent done s) ∧ Forall aligned (screen s)))
      with (sched := sched) (s := init t0); try done.
    - intros a s1 s2 Ha Hs [[done Hd] Hal].
      destruct (step_consistent a s1 s2 done Ha Hs Hd) as [done' Hd'].
      split; [by exists done'|].
      destruct (step_screen a s1 s2 Hs) as [->|(c & Hanim & -> & Hsn)];
        [done|].
      apply Forall_app. split; [done|]. apply Forall_singleton.
      apply (animate_aligned (g s1)); [done|].
      apply coherent_balanced.
      pose proof (c_snapshots _ _ Hd') as Hco. rewrite Hsn in Hco.
      rewrite Forall_forall in Hco. apply Hco.
      apply elem_of_app. right. by constructor.
    - split; [exists []; apply init_consistent|]. by constructor. }
  rewrite Forall_forall in Hall. by eapply Hall.
Qed.

End more_threads.

Section more_sample_runs.
Import Basiclog.

(** The producer is between lines 145 and 146: it holds the lock, the
    main thread does not. *)
Lemma lock_held_inside_blocks_only_witness :
  run mid_frame_run (init 0) = Some (state_after mid_frame_run) ∧
  data_lock (g (state_after mid_frame_run)) = Some Producer ∧
  ((data_lock (g (state_after mid_frame_run)) = Some Producer ↔
    in_critical (producer (state_after mid_frame_run)) = true) ∧
   (data_lock (g (state_after mid_frame_run)) = Some MainThread ↔
    animating (main (state_after mid_frame_run)) = true) ∧
   ¬ (in_critical (producer (state_after mid_frame_run)) = true ∧
      animating (main (state_after mid_frame_run)) = true)).
Proof.
  split; [by vm_compute|]. split; [by vm_compute|].
  apply (lock_held_inside_blocks_only 0 mid_frame_run). by vm_compute.
Defined.

(** From the same state the lock is released within six steps. *)
Lemma held_lock_is_released_witness :
  run mid_frame_run (init 0) = Some (state_after mid_frame_run) ∧
  is_Some (data_lock (g (state_after mid_frame_run))) ∧
  ∃ sched' s', length sched' ≤ 6 ∧ Forall link_silent sched' ∧
    run sched' (state_after mid_frame_run) = Some s' ∧
    data_lock (g s') = None.
Proof.
  assert (run mid_frame_run (init 0) = Some (state_after mid_frame_run))
    as Hr by by vm_compute.
  assert (is_Some (data_lock (g (state_after mid_frame_run)))) as Hl.
  { exists Producer. by vm_compute. }
  split; [exact Hr|]. split; [exact Hl|].
  exact (held_lock_is_released 0 mid_frame_run _ Hr Hl).
Defined.

(** After three frames the four series hold three values each. *)
Lemma series_never_exceed_capacity_witness :
  run sample_run (init 0) = Some (state_after sample_run) ∧
  Deque.len (timestamps (g (state_after sample_run))) = 3 ∧
  series_bounded (g (state_after sample_run)).
Proof.
  split; [by vm_compute|]. split; [by vm_compute|].
  apply (series_never_exceed_capacity 0 sample_run). by vm_compute.
Defined.

(** Three frames taken, counted and printed. *)
Lemma frames_counted_but_last_witness :
  run sample_run (init 0) = Some (state_after sample_run) ∧
  length (fetched (state_after sample_run)) = 3 ∧
  (data_count (g (state_after sample_run))
     ≤ length (fetched (state_after sample_run))
     ≤ data_count (g (state_after sample_run)) + 1 ∧
   printed (stdout (state_after sample_run))
     ≤ data_count (g (state_after sample_run))
     ≤ printed (stdout (state_after sample_run)) + 1).
Proof.
  split; [by vm_compute|]. split; [by vm_compute|].
  apply (frames_counted_but_last 0 sample_run). by vm_compute.
Defined.

Lemma pitchless_frame_malformed : ¬ frame_ok pitchless_frame.
Proof. intros (_ & [v Hv] & _). by vm_compute in Hv. Qed.

(** A good frame, then one without pitch: the second is the last one
    taken, and one frame is counted and printed. *)
Lemma malformed_frame_ends_collection_witness :
  run malformed_run (init 0) = Some (state_after malformed_run) ∧
  fetched (state_after malformed_run)
    = [sample_frame 1000 0] ++ pitchless_frame :: [] ∧
  ¬ frame_ok pitchless_frame ∧
  ([] = @nil frame ∧
   data_count (g (state_after malformed_run))
     = length [sample_frame 1000 0] ∧
   printed (stdout (state_after malformed_run))
     = length [sample_frame 1000 0]).
Proof.
  assert (run malformed_run (init 0) = Some (state_after malformed_run))
    as Hr by by vm_compute.
  assert (fetched (state_after malformed_run)
            = [sample_frame 1000 0] ++ pitchless_frame :: []) as Hf
    by by vm_compute.
  split; [exact Hr|]. split; [exact Hf|].
  split; [exact pitchless_frame_malformed|].
  exact (malformed_frame_ends_collection 0 malformed_run _ _ _ _
           Hr Hf pitchless_frame_malformed).
Defined.

(** The run that ends on the deadline prints the total 1 after one frame
    line. *)
Lemma total_is_number_of_frame_lines_witness :
  run timed_out_run (init 0) = Some (state_after timed_out_run) ∧
  MsgTotal 1 ∈ stdout (state_after timed_out_run) ∧
  (1 = data_count (g (state_after timed_out_run)) ∧
   1 = printed (stdout (state_after timed_out_run)) ∧
   is_alive (producer (state_after timed_out_run)) = false).
Proof.
  assert (run timed_out_run (init 0) = Some (state_after timed_out_run))
    as Hr by by vm_compute.
  assert (MsgTotal 1 ∈ stdout (state_after timed_out_run)) as Hin.
  { apply (list_elem_of_lookup_2 _ 3). by vm_compute. }
  split; [exact Hr|]. split; [exact Hin|].
  exact (total_is_number_of_frame_lines 0 timed_out_run _ 1 Hr Hin).
Defined.

(** The second tick of the sample run draws the roll of three frames
    against three abscissas. *)
Lemma curves_have_matching_lengths_witness :
  ∃ cmds xs ys,
    Forall well_formed sample_run ∧
    run sample_run (init 0) = Some (state_after sample_run) ∧
    screen (state_after sample_run) !! 1 = Some cmds ∧
    cmds !! 3 = Some (Plot ax1 xs ys "r-") ∧
    length ys = 3 ∧
    length xs = length ys.
Proof.
  eexists _, _, _.
  assert (run sample_run (init 0) = Some (state_after sample_run))
    as Hr by by vm_compute.
  assert (screen (state_after sample_run) !! 1 = Some _) as Hs
    by (vm_compute; reflexivity).
  split; [exact sample_run_well_formed|]. split; [exact Hr|].
  split; [exact Hs|]. split; [reflexivity|]. split; [reflexivity|].
  eapply (curves_have_matching_lengths 0 sample_run _ _ ax1 _ _ "r-"
            sample_run_well_formed Hr).
  - apply (list_elem_of_lookup_2 _ 1). exact Hs.
  - apply (list_elem_of_lookup_2 _ 3). reflexivity.
Defined.
End more_sample_runs.

(** ** The calls of [test_hover.py], whatever they do *)

(** Symbolic execution of the script against [fate]: the outcome of the
    call number [n], the next one to be issued in [H]. *)
Ltac script_reduce H :=
  cbv beta iota zeta delta
    [Hover.main Hover.armed_flight Hover.sequence Hover.with_ Hover.enter
     Hover.exit Hover.SyncCrazyflie Hover.MotionCommander Hover.call
     mbind Hover.M_bind mret Hover.M_ret length app fst snd] in H.

Ltac script_call fate n H :=
  destruct (fate n) as [?e|]; script_reduce H.

Ltac script_run fate H :=
  script_reduce H;
  script_call fate 0 H; [|
  script_call fate 1 H; [|
  script_call fate 2 H; [script_call fate 3 H|
  script_call fate 3 H; [script_call fate 4 H|
  script_call fate 4 H; [script_call fate 5 H|
  script_call fate 5 H; [script_call fate 6 H; script_call fate 7 H|
  script_call fate 6 H; [script_call fate 7 H; script_call fate 8 H|
  script_call fate 7 H; [script_call fate 8 H; script_call fate 9 H|
  script_call fate 8 H; [script_call fate 9 H; script_call fate 10 H|
  script_call fate 9 H; [script_call fate 10 H; script_call fate 11 H|
  script_call fate 10 H; script_call fate 11 H]]]]]]]]]];
  injection H as <- <-.

Section hover_more.
Import Hover.
Implicit Types (fate : nat → option exn) (tr evs : list event).

Lemma honest_call c : honest (call c).
Proof.
  intros fate tr. exists [(c, fate (length tr))]. unfold call. cbn.
  split; [done|]. destruct (fate (length tr)) as [e|]; split.
  - split; [done|]. by intros [? _]%Forall_cons.
  - intros e' [= ->]. exists c. by constructor.
  - split; [|done]. intros _. by repeat constructor.
  - done.
Qed.

Lemma honest_seq (b1 b2 : M unit) :
  honest b1 → honest b2 → honest (b1 ;; b2).
Proof.
  intros H1 H2 fate tr.
  destruct (H1 fate tr) as (evs1 & E1 & Hok1 & Hr1).
  unfold mbind, M_bind.
  destruct (b1 fate tr) as [[[]|e1] tr1] eqn:Eb1; cbn in *; subst tr1.
  - destruct (H2 fate (tr ++ evs1)) as (evs2 & E2 & Hok2 & Hr2).
    exists (evs1 ++ evs2). rewrite E2, app_assoc. split; [done|]. split.
    + rewrite Hok2, Forall_app. split; [|by intros [_ ?]].
      intros ?. split; [by apply Hok1|done].
    + intros e He. destruct (Hr2 e He) as [c Hc]. exists c.
      apply elem_of_app. by right.
  - exists evs1. split; [done|]. split.
    + split; [done|]. intros Hall. by apply Hok1 in Hall.
    + done.
Qed.

Lemma honest_with (cm : context_manager) c1 c2 (b : M unit) :
  enter cm = call c1 →
  exit cm = (fun _ => call c2;; mret false) →
  honest b → honest (with_ cm b).
Proof.
  intros Hen Hex Hb fate tr.
  rewrite (with_calls cm c1 c2 b fate tr Hen Hex).
  destruct (fate (length tr)) as [e|].
  { exists [(c1, Some e)]. cbn. split; [done|]. split.
    - split; [done|]. by intros [? _]%Forall_cons.
    - intros e' [= ->]. exists c1. by constructor. }
  cbn zeta.
  destruct (Hb fate (tr ++ [(c1, None)])) as (evs & E & Hok & Hr).
  destruct (b fate (tr ++ [(c1, None)])) as [r tr2]. cbn in *. subst tr2.
  exists ((c1, None) :: evs ++ [(c2, fate (length ((tr ++ [(c1, None)]) ++ evs)))]).
  split; [by rewrite <- !app_assoc|].
  destruct (fate (length ((tr ++ [(c1, None)]) ++ evs))) as [e2|]; cbn.
  - split.
    + split; [done|]. intros [_ [_ [? _]%Forall_cons]%Forall_app]%Forall_cons.
      done.
    + intros e' [= ->]. exists c2. apply elem_of_cons. right.
      apply elem_of_app. right. by constructor.
  - split.
    + rewrite Hok, Forall_cons, Forall_app. split.
      * intros ?. split; [done|]. split; [done|]. by repeat constructor.
      * by intros (_ & ? & _).
    + intros e' He'. destruct (Hr e' He') as [c Hc]. exists c.
      apply elem_of_cons. right. apply elem_of_app. by left.
Qed.

Lemma honest_main : honest main.
Proof.
  unfold main, armed_flight, sequence.
  repeat first
    [ apply (honest_with SyncCrazyflie OpenLink CloseLink); [done|done|]
    | apply (honest_with MotionCommander TakeOff Land); [done|done|]
    | apply honest_call
    | apply honest_seq ].
Qed.

(** X10: the script swallows no exception: it returns normally exactly
    when every call it issued returned, and an exception it raises was
    raised by one of its calls. *)
Theorem script_swallows_no_exception fate r tr :
  main fate [] = (r, tr) →
  (r = Ok () ↔ Forall returned tr) ∧
  (∀ e, r = Raise e → ∃ c, (c, Some e) ∈ tr).
Proof.
  intros H. destruct (honest_main fate []) as (evs & E & Hok & Hr).
  rewrite H in *. cbn in *. by subst tr.
Qed.

(** X11: whatever each call does, the script lands as many times as a
    take-off returned and closes the link as many times as it was
    opened, at most once each. *)
Theorem releases_what_was_acquired fate r tr :
  main fate [] = (r, tr) →
  issued is_land tr = issued took_off tr ∧ issued took_off tr ≤ 1 ∧
  issued is_close tr = issued opened tr ∧ issued opened tr ≤ 1.
Proof.
  intros H. script_run fate H.
  all: cbn; split_and?; (reflexivity || lia).
Qed.

(** X12: whatever each call does, a motion command (up, down, stop) is
    issued only after the one take-off returned and before any land, and
    the take-off only after the arming request and the opening of the
    link returned and before the link is closed. *)
Theorem commands_respect_flight_phases fate r tr i ev :
  main fate [] = (r, tr) → tr !! i = Some ev →
  (is_motion ev = true →
   issued took_off (take i tr) = 1 ∧ issued is_land (take i tr) = 0) ∧
  (ev.1 = TakeOff →
   issued armed (take i tr) = 1 ∧ issued opened (take i tr) = 1 ∧
   issued is_close (take i tr) = 0).
Proof.
  intros H Hi. script_run fate H.
  all: do 12 (destruct i as [|i];
              [cbn in Hi; simplify_eq; split; intros Hev; try done;
               by cbn|]);
    done.
Qed.
End hover_more.

(** The ascent times out: the script raises the timeout, which the
    ascent raised. *)
Lemma script_swallows_no_exception_witness :
  Hover.main Hover.ascent_times_out []
    = ((Hover.main Hover.ascent_times_out []).1,
       (Hover.main Hover.ascent_times_out []).2) ∧
  (Hover.main Hover.ascent_times_out []).1
    = Raise (LinkError "MotionTimeout") ∧
  (((Hover.main Hover.ascent_times_out []).1 = Ok () ↔
    Forall Hover.returned (Hover.main Hover.ascent_times_out []).2) ∧
   (∀ e, (Hover.main Hover.ascent_times_out []).1 = Raise e →
         ∃ c, (c, Some e) ∈ (Hover.main Hover.ascent_times_out []).2)).
Proof.
  split; [apply surjective_pairing|]. split; [by vm_compute|].
  exact (script_swallows_no_exception Hover.ascent_times_out _ _
           (surjective_pairing (Hover.main Hover.ascent_times_out []))).
Defined.

(** The same run: one take-off and one land, one link opened and one
    closed. *)
Lemma releases_what_was_acquired_witness :
  Hover.main Hover.ascent_times_out []
    = ((Hover.main Hover.ascent_times_out []).1,
       (Hover.main Hover.ascent_times_out []).2) ∧
  Hover.issued Hover.took_off (Hover.main Hover.ascent_times_out []).2 = 1 ∧
  (Hover.issued Hover.is_land (Hover.main Hover.ascent_times_out []).2
     = Hover.issued Hover.took_off (Hover.main Hover.ascent_times_out []).2 ∧
   Hover.issued Hover.took_off (Hover.main Hover.ascent_times_out []).2 ≤ 1 ∧
   Hover.issued Hover.is_close (Hover.main Hover.ascent_times_out []).2
     = Hover.issued Hover.opened (Hover.main Hover.ascent_times_out []).2 ∧
   Hover.issued Hover.opened (Hover.main Hover.ascent_times_out []).2 ≤ 1).
Proof.
  split; [apply surjective_pairing|]. split; [by vm_compute|].
  exact (releases_what_was_acquired Hover.ascent_times_out _ _
           (surjective_pairing (Hover.main Hover.ascent_times_out []))).
Defined.

(** The same run: the ascent, the seventh call, comes after the take-off
    and before the land. *)
Lemma commands_respect_flight_phases_witness :
  Hover.main Hover.ascent_times_out []
    = ((Hover.main Hover.ascent_times_out []).1,
       (Hover.main Hover.ascent_times_out []).2) ∧
  (Hover.main Hover.ascent_times_out []).2 !! 6
    = Some (Hover.Up (7 # 10), Some (LinkError "MotionTimeout")) ∧
  Hover.is_motion (Hover.Up (7 # 10), Some (LinkError "MotionTimeout"))
    = true ∧
  ((Hover.is_motion (Hover.Up (7 # 10), Some (LinkError "MotionTimeout"))
      = true →
    Hover.issued Hover.took_off
      (take 6 (Hover.main Hover.ascent_times_out []).2) = 1 ∧
    Hover.issued Hover.is_land
      (take 6 (Hover.main Hover.ascent_times_out []).2) = 0) ∧
   ((Hover.Up (7 # 10), Some (LinkError "MotionTimeout")).1 = Hover.TakeOff →
    Hover.issued Hover.armed
      (take 6 (Hover.main Hover.ascent_times_out []).2) = 1 ∧
    Hover.issued Hover.opened
      (take 6 (Hover.main Hover.ascent_times_out []).2) = 1 ∧
    Hover.issued Hover.is_close
      (take 6 (Hover.main Hover.ascent_times_out []).2) = 0)).
Proof.
  split; [apply surjective_pairing|]. split; [by vm_compute|].
  split; [reflexivity|].
  apply (commands_respect_flight_phases Hover.ascent_times_out
           (Hover.main Hover.ascent_times_out []).1
           (Hover.main Hover.ascent_times_out []).2 6).
  - apply surjective_pairing.
  - by vm_compute.
Defined.
